(** * NH3HistoricalData: extrema detection, alternation cleanup and rates

    A shallow embedding of the computational cells of the notebook
    [NH3HistoricalData.ipynb] ("Detect peaks" and "Rate Analysis"), together
    with the properties of the alternation filter and of the rate table.

    Conventions of the embedding.
    - The column [NH3] holds float64 readings.  In the cells they are
      modelled as exact rationals [Q], so the statements about the tables
      concern what does not depend on rounding: which rows are kept, their
      order, labels and tags, the signs of the differences.  The detection
      itself does depend on rounding, at the prominence floor; the module
      [Binary64] runs it on binary64 floats, and the contract of the
      detection is stated there.  [dropna] has removed every NaN from [df];
      a NaN cell of a computed column is [None].
    - The column [Time] holds datetime64[ns] stamps; they are modelled as
      a number of nanoseconds in [Z], a timedelta likewise, NaT is [None].
      The difference of two stamps is taken on their int64 values and wraps
      around as numpy's subtraction does (pandas 1.x; later versions raise
      OverflowError where the wrap-around would occur).  The statements
      about the sign of a time difference therefore assume stamps between
      1970 and 2262, the range in which no difference wraps.
    - The column [type] only ever receives the strings 'max' and 'min'.
    - A DataFrame is the list of its rows in row order, each row paired with
      its index label.  [merge_ordered] yields the labels 0 .. n-1; [drop]
      removes a row and leaves the labels of the other rows untouched, and
      [extrema['type'][i]] on such an integer index looks the label [i] up.
      Assigning a scalar to a new column of a frame without rows raises
      ValueError.
    - A Python exception is a value of [exn]; a [while] loop runs on fuel,
      and every loop is shown to stop before its fuel does.
    - The plots are left out; of [plotrates] only the two curves it is
      given are modelled. *)

From Stdlib Require Import List ZArith QArith Lia Lqa Bool Arith.
From Stdlib Require Import Sorted Permutation.
From Stdlib Require Ascii String.
From Stdlib Require Floats.
Import ListNotations.
Open Scope nat_scope.

Set Implicit Arguments.

(** ** Values, rows and frames *)

Inductive tag : Type := Tmax | Tmin.

Definition tag_eqb (a b : tag) : bool :=
  match a, b with
  | Tmax, Tmax | Tmin, Tmin => true
  | _, _ => false
  end.

(** A row of [df]: the columns 'Time' and 'NH3'. *)
Record sample : Type := mkSample { Time : Z; NH3 : Q }.

(** A row of [maxima], [minima] and of the merged [extrema]. *)
Record extremum : Type := mkExtremum { point : sample; type : tag }.

(** A row of [extrema] once 'Delta_NH3' and 'Delta_Time' are assigned. *)
Record delta_row : Type := mkDelta {
  base : extremum;
  Delta_NH3 : option Q;
  Delta_Time : option Z
}.

(** The result of a float64 division as numpy performs it: dividing by zero
    raises nothing and yields an infinity or NaN. *)
Inductive float64 : Type :=
| Finite (q : Q)
| PosInf
| NegInf
| NaN.

(** A row of [extrema] once 'NH3/Hour' is assigned. *)
Record rate_row : Type := mkRate {
  deltas : delta_row;
  NH3_per_Hour : float64
}.

Inductive exn : Type :=
| KeyError (label : nat)
| TypeError
| IndexError (position : nat)
| ValueError.

(** The outcome of a computation: a value, an uncaught exception, or a loop
    of the model that was not given enough fuel. *)
Inductive result (A : Type) : Type :=
| Ok (a : A)
| Raise (e : exn)
| OutOfFuel.
Arguments Ok {A} a.
Arguments Raise {A} e.
Arguments OutOfFuel {A}.

Definition bind {A B} (r : result A) (k : A -> result B) : result B :=
  match r with
  | Ok a => k a
  | Raise e => Raise e
  | OutOfFuel => OutOfFuel
  end.

Notation "x <- r ;; k" := (bind r (fun x => k))
  (at level 61, r at next level, right associativity).

Module Frame.

Definition frame (A : Type) : Type := list (nat * A).

(** A frame with a fresh RangeIndex. *)
Definition enum_from {A} (start : nat) (rows : list A) : frame A :=
  combine (seq start (length rows)) rows.

Definition enumerate {A} (rows : list A) : frame A := enum_from 0 rows.

Definition rows {A} (f : frame A) : list A := map snd f.

Definition labels {A} (f : frame A) : list nat := map fst f.

(** [f[col][i]] on an integer index: lookup by label. *)
Fixpoint loc {A} (f : frame A) (i : nat) : option A :=
  match f with
  | [] => None
  | (l, r) :: f' => if l =? i then Some r else loc f' i
  end.

(** [f.drop(i, axis=0)]: the label must be present. *)
Definition drop {A} (i : nat) (f : frame A) : result (frame A) :=
  match loc f i with
  | None => Raise (KeyError i)
  | Some _ => Ok (filter (fun lr => negb (fst lr =? i)) f)
  end.

(** [s.diff()]: first differences by position, the first cell is missing. *)
Fixpoint diff_from {A} (sub : A -> A -> A) (prev : A) (l : list A)
  : list (option A) :=
  match l with
  | [] => []
  | v :: t => Some (sub v prev) :: diff_from sub v t
  end.

Definition diff {A} (sub : A -> A -> A) (l : list A) : list (option A) :=
  match l with
  | [] => []
  | v :: t => None :: diff_from sub v t
  end.

End Frame.
Import Frame.

(** ** The alternation loop of the "Rate Analysis" cell *)

(** What the loop leaves behind: the frame bound to [extrema] when it stops,
    the comparisons [extrema['type'][i] == extrema['type'][i+1]] it has
    evaluated (a ghost log, in order), and how it stopped. *)
Record loop_result : Type := mkLoop {
  final : frame extremum;
  compared : list ((nat * extremum) * (nat * extremum));
  how : result unit
}.

Fixpoint alternation_loop (fuel i imax : nat) (extrema : frame extremum)
    (log : list ((nat * extremum) * (nat * extremum))) : loop_result :=
  match fuel with
  | O => mkLoop extrema log OutOfFuel
  | S fuel' =>
      if i + 1 <? imax then
        match loc extrema i with
        | None => mkLoop extrema log (Raise (KeyError i))
        | Some a =>
            match loc extrema (i + 1) with
            | None => mkLoop extrema log (Raise (KeyError (i + 1)))
            | Some b =>
                let log' := log ++ [((i, a), (i + 1, b))] in
                if tag_eqb (type a) (type b) then
                  match drop i extrema with
                  | Raise e => mkLoop extrema log' (Raise e)
                  | OutOfFuel => mkLoop extrema log' OutOfFuel
                  | Ok extrema' => alternation_loop fuel' (i + 1) imax extrema' log'
                  end
                else alternation_loop fuel' (i + 1) imax extrema log'
            end
        end
      else mkLoop extrema log (Ok tt)
  end.

(** [i = 0; imax = len(extrema); while (i+1 < imax): ...].  The counter grows
    by one per iteration, so [imax] units of fuel are never used up. *)
Definition alternation (extrema : frame extremum) : loop_result :=
  let imax := length extrema in
  alternation_loop (S imax) 0 imax extrema [].

(** ** Differences, the drop of row 0 and the hourly rate *)

(** A value of int64 arithmetic: the representative of [z] modulo 2^64 in
    the range from -2^63 to 2^63 - 1. *)
Definition wrap64 (z : Z) : Z := ((z + 2 ^ 63) mod 2 ^ 64 - 2 ^ 63)%Z.

(** [extrema['Time'].diff()] subtracts the int64 nanosecond counts.  The
    result -2^63, which numpy reads as NaT, is not singled out: it takes
    two stamps exactly 2^63 ns apart. *)
Definition timedelta (cur prev : Z) : Z := wrap64 (cur - prev).

Definition add_deltas (extrema : frame extremum) : frame delta_row :=
  let d_nh3 := diff Qminus (map (fun r => NH3 (point r)) (rows extrema)) in
  let d_time := diff timedelta (map (fun r => Time (point r)) (rows extrema)) in
  map (fun x => (fst (fst x), mkDelta (snd (fst x)) (fst (snd x)) (snd (snd x))))
      (combine extrema (combine d_nh3 d_time)).

(** [pd.Timedelta.total_seconds(t)]: nanoseconds to seconds, taken
    exactly.  For NaT the outcome depends on the pandas version (an error
    in some, NaN in others); the cell passes none, the one row with NaT
    being dropped before (see [rate_steps_outcome]). *)
Definition total_seconds (t : option Z) : result Q :=
  match t with
  | Some ns => Ok (inject_Z ns / inject_Z 1000000000)%Q
  | None => Raise TypeError
  end.

(** [[pd.Timedelta.total_seconds(t)/3600 for t in extrema['Delta_Time']]] *)
Fixpoint hours_of (ts : list (option Z)) : result (list Q) :=
  match ts with
  | [] => Ok []
  | t :: ts' =>
      s <- total_seconds t ;;
      hs <- hours_of ts' ;;
      Ok ((s / inject_Z 3600)%Q :: hs)
  end.

(** Float division of a cell by a number. *)
Definition true_divide (a : option Q) (b : Q) : float64 :=
  match a with
  | None => NaN
  | Some a =>
      if Qeq_bool b 0 then
        match (a ?= 0)%Q with
        | Gt => PosInf
        | Lt => NegInf
        | Eq => NaN
        end
      else Finite (a / b)%Q
  end.

Definition add_rate (extrema : frame delta_row) : result (frame rate_row) :=
  hs <- hours_of (map Delta_Time (rows extrema)) ;;
  Ok (map (fun x => (fst (fst x), mkRate (snd (fst x)) (true_divide (Delta_NH3 (snd (fst x))) (snd x))))
          (combine extrema hs)).

(** ** scipy.signal.find_peaks, as the notebook calls it

    The library routine, after scipy's [_peak_finding.py] and
    [_peak_finding_utils.pyx].  The notebook passes [height] and
    [prominence] only, so [find_peaks] is the local-maximum scan followed by
    the two filters; [wlen] is unset and every prominence is evaluated over
    the whole series. *)

Module Scipy.

Definition Qltb (a b : Q) : bool :=
  match (a ?= b)%Q with
  | Lt => true
  | _ => false
  end.

Definition at_ (x : list Q) (i : nat) : Q := nth i x 0%Q.

(** [while i_ahead < i_max and x[i_ahead] == x[i]: i_ahead += 1] *)
Fixpoint look_ahead (fuel : nat) (x : list Q) (i i_ahead i_max : nat) : nat :=
  match fuel with
  | O => i_ahead
  | S fuel' =>
      if (i_ahead <? i_max) && Qeq_bool (at_ x i_ahead) (at_ x i)
      then look_ahead fuel' x i (i_ahead + 1) i_max
      else i_ahead
  end.

(** The scan of [_local_maxima_1d]: the midpoints of the plateaus that are
    higher than both neighbours, in increasing order. *)
Fixpoint local_maxima_loop (fuel : nat) (x : list Q) (i i_max : nat) : list nat :=
  match fuel with
  | O => []
  | S fuel' =>
      if i <? i_max then
        if Qltb (at_ x (i - 1)) (at_ x i) then
          let i_ahead := look_ahead i_max x i (i + 1) i_max in
          if Qltb (at_ x i_ahead) (at_ x i) then
            (i + (i_ahead - 1)) / 2 :: local_maxima_loop fuel' x (i_ahead + 1) i_max
          else local_maxima_loop fuel' x (i + 1) i_max
        else local_maxima_loop fuel' x (i + 1) i_max
      else []
  end.

Definition local_maxima_1d (x : list Q) : list nat :=
  let i_max := length x - 1 in
  local_maxima_loop i_max x 1 i_max.

(** [while i_min <= i and x[i] <= x[peak]: ...; i -= 1] with [i_min = 0] *)
Fixpoint left_scan (fuel : nat) (x : list Q) (peak : nat) (i : Z) (left_min : Q) : Q :=
  match fuel with
  | O => left_min
  | S fuel' =>
      if (0 <=? i)%Z && Qle_bool (at_ x (Z.to_nat i)) (at_ x peak) then
        let left_min :=
          if Qltb (at_ x (Z.to_nat i)) left_min then at_ x (Z.to_nat i) else left_min in
        left_scan fuel' x peak (i - 1) left_min
      else left_min
  end.

(** [while i <= i_max and x[i] <= x[peak]: ...; i += 1] *)
Fixpoint right_scan (fuel : nat) (x : list Q) (peak i i_max : nat) (right_min : Q) : Q :=
  match fuel with
  | O => right_min
  | S fuel' =>
      if (i <=? i_max) && Qle_bool (at_ x i) (at_ x peak) then
        let right_min := if Qltb (at_ x i) right_min then at_ x i else right_min in
        right_scan fuel' x peak (i + 1) i_max right_min
      else right_min
  end.

Definition fmax (a b : Q) : Q := if Qltb a b then b else a.

(** [x[peak] - max(left_min, right_min)] of [_peak_prominences]. *)
Definition prominence (x : list Q) (peak : nat) : Q :=
  let i_max := length x - 1 in
  let left_min := left_scan (S peak) x peak (Z.of_nat peak) (at_ x peak) in
  let right_min := right_scan (S (i_max - peak)) x peak peak i_max (at_ x peak) in
  (at_ x peak - fmax left_min right_min)%Q.

(** One iteration of [_peak_prominences]: a peak outside of [x] is refused. *)
Definition prominence_of (x : list Q) (peak : nat) : result Q :=
  if peak <? length x then Ok (prominence x peak) else Raise ValueError.

Fixpoint peak_prominences (x : list Q) (peaks : list nat) : result (list Q) :=
  match peaks with
  | [] => Ok []
  | peak :: peaks' =>
      p <- prominence_of x peak ;;
      ps <- peak_prominences x peaks' ;;
      Ok (p :: ps)
  end.

(** [peaks[keep]] for a boolean mask [keep]. *)
Fixpoint select {A} (keep : list bool) (l : list A) : list A :=
  match keep, l with
  | true :: keep', a :: l' => a :: select keep' l'
  | false :: keep', _ :: l' => select keep' l'
  | _, _ => []
  end.

(** [_select_by_property] with a lower bound only. *)
Definition select_by_property (props : list Q) (pmin : Q) : list bool :=
  map (Qle_bool pmin) props.

Definition find_peaks (x : list Q) (height prominence : Q) : result (list nat) :=
  let peaks := local_maxima_1d x in
  let peak_heights := map (at_ x) peaks in
  let peaks := select (select_by_property peak_heights height) peaks in
  prominences <- peak_prominences x peaks ;;
  Ok (select (select_by_property prominences prominence) peaks).

End Scipy.
Import Scipy.

(** ** The notebook: its global variables and the two computational cells *)

(** [df.iloc[positions]]: rows by position. *)
Fixpoint iloc (df : list sample) (positions : list nat) : result (list sample) :=
  match positions with
  | [] => Ok []
  | p :: positions' =>
      match nth_error df p with
      | None => Raise (IndexError p)
      | Some r =>
          rs <- iloc df positions' ;;
          Ok (r :: rs)
      end
  end.

(** The order of the strings 'max' and 'min'. *)
Definition tag_leb (a b : tag) : bool :=
  match a, b with
  | Tmin, Tmax => false
  | _, _ => true
  end.

(** [pd.merge_ordered(maxima, minima)] joins on every common column, that is
    on ('Time', 'NH3', 'type'), with how='outer'.  A row of [maxima] never
    equals a row of [minima], so the result holds the rows of both, sorted by
    that key, under a fresh index. *)
Definition key_leb (a b : extremum) : bool :=
  if (Time (point a) <? Time (point b))%Z then true
  else if (Time (point b) <? Time (point a))%Z then false
  else if Qltb (NH3 (point a)) (NH3 (point b)) then true
  else if Qltb (NH3 (point b)) (NH3 (point a)) then false
  else tag_leb (type a) (type b).

Fixpoint insert (a : extremum) (l : list extremum) : list extremum :=
  match l with
  | [] => [a]
  | b :: l' => if key_leb a b then a :: b :: l' else b :: insert a l'
  end.

Fixpoint sort (l : list extremum) : list extremum :=
  match l with
  | [] => []
  | a :: l' => insert a (sort l')
  end.

Definition merge_ordered (left right : list extremum) : frame extremum :=
  enumerate (sort (left ++ right)).

(** The values the variables [maxima] and [minima] go through. *)
Inductive peaks_var : Type :=
| Positions (idx : list nat)
| Untagged (rs : list sample)
| Tagged (rs : list extremum).

(** The values the variable [extrema] goes through. *)
Inductive extrema_var : Type :=
| Merged (f : frame extremum)
| WithDeltas (f : frame delta_row)
| WithRates (f : frame rate_row).

(** The globals the two cells read or write.  [i], [imax], [cmax] and [cmin]
    are rebound by the cell before any read and are left out. *)
Record notebook : Type := mkNotebook {
  df : list sample;
  max_cutoff : Q;
  min_cutoff : Q;
  maxima : peaks_var;
  minima : peaks_var;
  extrema : extrema_var
}.

Definition set_maxima (v : peaks_var) (s : notebook) : notebook :=
  mkNotebook (df s) (max_cutoff s) (min_cutoff s) v (minima s) (extrema s).

Definition set_minima (v : peaks_var) (s : notebook) : notebook :=
  mkNotebook (df s) (max_cutoff s) (min_cutoff s) (maxima s) v (extrema s).

Definition set_extrema (v : extrema_var) (s : notebook) : notebook :=
  mkNotebook (df s) (max_cutoff s) (min_cutoff s) (maxima s) (minima s) v.

(** A cell transforms the globals and either completes or stops at an
    uncaught exception, leaving the globals as they were at that point. *)
Definition cell (A : Type) : Type := notebook -> notebook * result A.

Definition bindc {A B} (m : cell A) (k : A -> cell B) : cell B :=
  fun s =>
    match m s with
    | (s', Ok a) => k a s'
    | (s', Raise e) => (s', Raise e)
    | (s', OutOfFuel) => (s', OutOfFuel)
    end.

Definition lift {A} (r : result A) : cell A := fun s => (s, r).

Definition read {A} (f : notebook -> A) : cell A := fun s => (s, Ok (f s)).

Definition assign (f : notebook -> notebook) : cell unit := fun s => (f s, Ok tt).

Notation "x <~ m ; k" := (bindc m (fun x => k))
  (at level 61, m at next level, right associativity).
Notation "m ;; k" := (bindc m (fun _ => k))
  (at level 61, right associativity).

Definition prominence_floor : Q := 3 # 10.

Definition maxima_positions (x : list Q) (max_cutoff : Q) : result (list nat) :=
  find_peaks x max_cutoff prominence_floor.

Definition minima_positions (x : list Q) (min_cutoff : Q) : result (list nat) :=
  find_peaks (map Qopp x) (- min_cutoff)%Q prominence_floor.

(** [rows.loc[:, 'type'] = t]: a new column set to a scalar.  pandas refuses
    this on a frame without rows ("cannot set a frame with no defined index
    and a scalar") and raises ValueError. *)
Definition tag_rows (t : tag) (rs : list sample) : result (list extremum) :=
  match rs with
  | [] => Raise ValueError
  | _ :: _ => Ok (map (fun p => mkExtremum p t) rs)
  end.

(** The cell "Detect peaks" (without its plot). *)
Definition detect_peaks : cell unit :=
  d <~ read df ;
  hi <~ read max_cutoff ;
  lo <~ read min_cutoff ;
  mx <~ lift (maxima_positions (map NH3 d) hi) ;
  assign (set_maxima (Positions mx)) ;;
  mn <~ lift (minima_positions (map NH3 d) lo) ;
  assign (set_minima (Positions mn)) ;;
  rmx <~ lift (iloc d mx) ;
  assign (set_maxima (Untagged rmx)) ;;
  rmn <~ lift (iloc d mn) ;
  assign (set_minima (Untagged rmn)) ;;
  tmx <~ lift (tag_rows Tmax rmx) ;
  assign (set_maxima (Tagged tmx)) ;;
  tmn <~ lift (tag_rows Tmin rmn) ;
  assign (set_minima (Tagged tmn)).

(** The statements of "Rate Analysis" that follow [pd.merge_ordered]. *)
Definition rate_steps (merged : frame extremum) : cell unit :=
  assign (set_extrema (Merged merged)) ;;
  let r := alternation merged in
  assign (set_extrema (Merged (final r))) ;;
  lift (how r) ;;
  let with_deltas := add_deltas (final r) in
  assign (set_extrema (WithDeltas with_deltas)) ;;
  dropped <~ lift (drop 0 with_deltas) ;
  assign (set_extrema (WithDeltas dropped)) ;;
  rated <~ lift (add_rate dropped) ;
  assign (set_extrema (WithRates rated)).

(** The cell "Rate Analysis" (without its display).  A run reaches it
    only after "Detect peaks" has completed, with tagged frames in [maxima]
    and [minima] (see [pipeline_closed_form]); what the cell does on other
    globals is not modelled, and the last branch stands for it. *)
Definition rate_analysis : cell unit :=
  mx <~ read maxima ;
  mn <~ read minima ;
  match mx, mn with
  | Tagged l, Tagged r => rate_steps (merge_ordered l r)
  | _, _ => lift (Raise TypeError)
  end.

(** A run: the "Continue" button under the sliders executes the cells
    below it, "Detect peaks" and then "Rate Analysis". *)
Definition pipeline : cell unit := detect_peaks ;; rate_analysis.

(** ** Reference definitions for the alternation filter *)

(** Rebuild into a new sequence, keeping the last entry of every run of
    equal tags. *)
Fixpoint keep_last {A} (tg : A -> tag) (l : list A) : list A :=
  match l with
  | [] => []
  | a :: t =>
      match t with
      | [] => [a]
      | b :: _ => if tag_eqb (tg a) (tg b) then keep_last tg t else a :: keep_last tg t
      end
  end.

(** Rebuild into a new sequence, keeping the first-seen entry of every run
    of equal tags. *)
Fixpoint keep_first_after {A} (tg : A -> tag) (prev : tag) (l : list A) : list A :=
  match l with
  | [] => []
  | a :: t =>
      if tag_eqb prev (tg a) then keep_first_after tg prev t
      else a :: keep_first_after tg (tg a) t
  end.

Definition keep_first {A} (tg : A -> tag) (l : list A) : list A :=
  match l with
  | [] => []
  | a :: t => a :: keep_first_after tg (tg a) t
  end.

(** The pairs of neighbours of a sequence. *)
Definition adjacent {A} (l : list A) : list (A * A) := combine l (tl l).

(** No two neighbours carry the same tag. *)
Fixpoint alternates (l : list tag) : Prop :=
  match l with
  | [] => True
  | a :: t =>
      match t with
      | [] => True
      | b :: _ => a <> b /\ alternates t
      end
  end.

Definition label_tag (lr : nat * extremum) : tag := type (snd lr).

(** Position [i] of [rs] survives: it is the last one, or its tag differs
    from the tag at position [i + 1]. *)
Definition survives (rs : list extremum) (i : nat) : bool :=
  (i + 1 =? length rs) ||
  match nth_error rs i, nth_error rs (i + 1) with
  | Some a, Some b => negb (tag_eqb (type a) (type b))
  | _, _ => false
  end.

Definition rebuild (rs : list extremum) : frame extremum :=
  filter (fun lr => survives rs (fst lr)) (enumerate rs).

(** ** Reference definitions for the rate table *)

(** A timedelta in hours: its seconds divided by 3600. *)
Definition hours (dt : Z) : Q :=
  (inject_Z dt / inject_Z 1000000000 / inject_Z 3600)%Q.

(** The row of the interval from [prev] to [cur]: the row of [cur] with its
    differences to [prev] and the change per hour. *)
Definition interval (prev cur : nat * extremum) : nat * rate_row :=
  let dv := (NH3 (point (snd cur)) - NH3 (point (snd prev)))%Q in
  let dt := timedelta (Time (point (snd cur))) (Time (point (snd prev))) in
  (fst cur, mkRate (mkDelta (snd cur) (Some dv) (Some dt)) (true_divide (Some dv) (hours dt))).

(** One row per pair of consecutive survivors. *)
Definition rate_table (survivors : frame extremum) : frame rate_row :=
  map (fun p => interval (fst p) (snd p)) (adjacent survivors).

(** The rows of [add_deltas] after the first one. *)
Fixpoint delta_rows (prev : extremum) (f : frame extremum) : frame delta_row :=
  match f with
  | [] => []
  | (l, e) :: t =>
      (l, mkDelta e (Some (NH3 (point e) - NH3 (point prev))%Q)
                    (Some (timedelta (Time (point e)) (Time (point prev)))))
      :: delta_rows e t
  end.

(** ** Reference definitions for the detection *)

(** The samples [l .. r] form a flat stretch that is strictly higher than
    the sample before it and the sample after it. *)
Definition plateau_peak (x : list Q) (l r : nat) : Prop :=
  1 <= l /\ l <= r /\ r + 1 < length x /\
  (at_ x (l - 1) < at_ x l)%Q /\
  (forall k, l <= k <= r -> (at_ x k == at_ x l)%Q) /\
  (at_ x (r + 1) < at_ x l)%Q.

(** A local peak: the middle sample (rounded down) of such a stretch; for a
    stretch of one sample, a sample higher than both direct neighbours. *)
Definition local_peak (x : list Q) (i : nat) : Prop :=
  exists l r, plateau_peak x l r /\ i = (l + r) / 2.

Fixpoint take_while {A} (p : A -> bool) (l : list A) : list A :=
  match l with
  | [] => []
  | a :: t => if p a then a :: take_while p t else []
  end.

Definition origin : sample := mkSample 0 0.

(** The rows bound to [maxima] and to [minima] by the cell. *)
Definition detected_maxima (d : list sample) (hi : Q) : list extremum :=
  match maxima_positions (map NH3 d) hi with
  | Ok ps => map (fun p => mkExtremum (nth p d origin) Tmax) ps
  | _ => []
  end.

Definition detected_minima (d : list sample) (lo : Q) : list extremum :=
  match minima_positions (map NH3 d) lo with
  | Ok ps => map (fun p => mkExtremum (nth p d origin) Tmin) ps
  | _ => []
  end.

(** ** The detection on binary64 readings

    [find_peaks] once more, on the float64 values the notebook passes to
    it.  The comparisons are those of IEEE 754, the prominence is the
    rounded difference [x[peak] - max(left_min, right_min)], and the floor
    is the float that the literal 0.3 denotes, 0x1.3333333333333p-2.  The
    reference definitions of a local peak and of the topographic prominence
    are repeated for such a series. *)

Module Binary64.

Import Floats.

Definition at_ (x : list float) (i : nat) : float := nth i x nan.

(** [while i_ahead < i_max and x[i_ahead] == x[i]: i_ahead += 1] *)
Fixpoint look_ahead (fuel : nat) (x : list float) (i i_ahead i_max : nat) : nat :=
  match fuel with
  | O => i_ahead
  | S fuel' =>
      if (i_ahead <? i_max) && PrimFloat.eqb (at_ x i_ahead) (at_ x i)
      then look_ahead fuel' x i (i_ahead + 1) i_max
      else i_ahead
  end.

Fixpoint local_maxima_loop (fuel : nat) (x : list float) (i i_max : nat) : list nat :=
  match fuel with
  | O => []
  | S fuel' =>
      if i <? i_max then
        if PrimFloat.ltb (at_ x (i - 1)) (at_ x i) then
          let i_ahead := look_ahead i_max x i (i + 1) i_max in
          if PrimFloat.ltb (at_ x i_ahead) (at_ x i) then
            (i + (i_ahead - 1)) / 2 :: local_maxima_loop fuel' x (i_ahead + 1) i_max
          else local_maxima_loop fuel' x (i + 1) i_max
        else local_maxima_loop fuel' x (i + 1) i_max
      else []
  end.

Definition local_maxima_1d (x : list float) : list nat :=
  let i_max := length x - 1 in
  local_maxima_loop i_max x 1 i_max.

(** [while i_min <= i and x[i] <= x[peak]: ...; i -= 1] with [i_min = 0] *)
Fixpoint left_scan (fuel : nat) (x : list float) (peak : nat) (i : Z) (left_min : float)
  : float :=
  match fuel with
  | O => left_min
  | S fuel' =>
      if (0 <=? i)%Z && PrimFloat.leb (at_ x (Z.to_nat i)) (at_ x peak) then
        let left_min :=
          if PrimFloat.ltb (at_ x (Z.to_nat i)) left_min
          then at_ x (Z.to_nat i) else left_min in
        left_scan fuel' x peak (i - 1) left_min
      else left_min
  end.

(** [while i <= i_max and x[i] <= x[peak]: ...; i += 1] *)
Fixpoint right_scan (fuel : nat) (x : list float) (peak i i_max : nat) (right_min : float)
  : float :=
  match fuel with
  | O => right_min
  | S fuel' =>
      if (i <=? i_max) && PrimFloat.leb (at_ x i) (at_ x peak) then
        let right_min :=
          if PrimFloat.ltb (at_ x i) right_min then at_ x i else right_min in
        right_scan fuel' x peak (i + 1) i_max right_min
      else right_min
  end.

Definition fmax (a b : float) : float := if PrimFloat.ltb a b then b else a.

(** [x[peak] - max(left_min, right_min)], a float64 subtraction. *)
Definition prominence (x : list float) (peak : nat) : float :=
  let i_max := length x - 1 in
  let left_min := left_scan (S peak) x peak (Z.of_nat peak) (at_ x peak) in
  let right_min := right_scan (S (i_max - peak)) x peak peak i_max (at_ x peak) in
  PrimFloat.sub (at_ x peak) (fmax left_min right_min).

Definition prominence_of (x : list float) (peak : nat) : result float :=
  if peak <? length x then Ok (prominence x peak) else Raise ValueError.

Fixpoint peak_prominences (x : list float) (peaks : list nat) : result (list float) :=
  match peaks with
  | [] => Ok []
  | peak :: peaks' =>
      p <- prominence_of x peak ;;
      ps <- peak_prominences x peaks' ;;
      Ok (p :: ps)
  end.

(** [_select_by_property] with a lower bound only: [pmin <= props]. *)
Definition select_by_property (props : list float) (pmin : float) : list bool :=
  map (PrimFloat.leb pmin) props.

Definition find_peaks (x : list float) (height prominence : float) : result (list nat) :=
  let peaks := local_maxima_1d x in
  let peak_heights := map (at_ x) peaks in
  let peaks := select (select_by_property peak_heights height) peaks in
  prominences <- peak_prominences x peaks ;;
  Ok (select (select_by_property prominences prominence) peaks).

(** The float of the literal [0.3]. *)
Definition prominence_floor : float := 0x1.3333333333333p-2%float.

(** [find_peaks(df['NH3'], height=max_cutoff, prominence=0.3)] *)
Definition maxima_positions (x : list float) (max_cutoff : float) : result (list nat) :=
  find_peaks x max_cutoff prominence_floor.

(** [find_peaks(-df['NH3'], height=-min_cutoff, prominence=0.3)] *)
Definition minima_positions (x : list float) (min_cutoff : float) : result (list nat) :=
  find_peaks (map PrimFloat.opp x) (PrimFloat.opp min_cutoff) prominence_floor.

(** The samples [l .. r] compare equal to each other and the samples before
    and after the stretch compare lower. *)
Definition plateau_peak (x : list float) (l r : nat) : Prop :=
  1 <= l /\ l <= r /\ r + 1 < length x /\
  PrimFloat.ltb (at_ x (l - 1)) (at_ x l) = true /\
  (forall k, l <= k <= r -> PrimFloat.eqb (at_ x k) (at_ x l) = true) /\
  PrimFloat.ltb (at_ x (r + 1)) (at_ x l) = true.

Definition local_peak (x : list float) (i : nat) : Prop :=
  exists l r, plateau_peak x l r /\ i = (l + r) / 2.

(** The lowest sample met when walking away from a peak of height [h] along
    [side] (which starts at the peak) until a sample higher than the peak. *)
Definition valley (h : float) (side : list float) : float :=
  fold_left (fun m v => if PrimFloat.ltb v m then v else m)
            (take_while (fun v => PrimFloat.leb v h) side) h.

(** The height of a peak above the higher of the two valleys around it, as
    the float64 difference of the two. *)
Definition topographic_prominence (x : list float) (peak : nat) : float :=
  let h := at_ x peak in
  PrimFloat.sub h (fmax (valley h (rev (firstn (S peak) x))) (valley h (skipn peak x))).

(** The readings 0.9, 1.2, 0.9 and 0.2, 0.5, 0.2. *)
Definition peak_below_floor : list float :=
  [0x1.ccccccccccccdp-1; 0x1.3333333333333p+0; 0x1.ccccccccccccdp-1]%float.

Definition peak_at_floor : list float :=
  [0x1.999999999999ap-3; 0x1p-1; 0x1.999999999999ap-3]%float.

(** The place of a float in the order of the IEEE comparisons: its sign
    class, then exponent and mantissa, negated for the negative numbers.
    The two zeros share a place and NaN has none. *)
Definition key (f : spec_float) : option (Z * Z * Z) :=
  match f with
  | S754_nan => None
  | S754_infinity true => Some (-2, 0, 0)%Z
  | S754_finite true m e => Some (-1, - e, Zneg m)%Z
  | S754_zero _ => Some (0, 0, 0)%Z
  | S754_finite false m e => Some (1, e, Zpos m)%Z
  | S754_infinity false => Some (2, 0, 0)%Z
  end.

Definition lex3 (a b : Z * Z * Z) : comparison :=
  match (fst (fst a) ?= fst (fst b))%Z with
  | Eq =>
      match (snd (fst a) ?= snd (fst b))%Z with
      | Eq => (snd a ?= snd b)%Z
      | c => c
      end
  | c => c
  end.

Definition opp3 (a : Z * Z * Z) : Z * Z * Z :=
  (- fst (fst a), - snd (fst a), - snd a)%Z.

End Binary64.

(** ** Input series and frames used in the examples *)

Definition series (ts : list Z) (vs : list Q) : list sample :=
  map (fun tv => mkSample (fst tv) (snd tv)) (combine ts vs).

Definition fresh (d : list sample) (hi lo : Q) : notebook :=
  mkNotebook d hi lo (Positions []) (Positions []) (Merged []).

Definition hour : Z := 3600000000000.

Definition blank : notebook :=
  mkNotebook [] 4 (5 # 2) (Positions []) (Positions []) (Merged []).

Definition two_maxima : list extremum :=
  [mkExtremum (mkSample 0 5) Tmax; mkExtremum (mkSample 3600000000000 6) Tmax].

Definition max_min_max : list extremum :=
  [mkExtremum (mkSample 3600000000000 5) Tmax;
   mkExtremum (mkSample 7200000000000 1) Tmin;
   mkExtremum (mkSample 10800000000000 6) Tmax].

(** Readings one hour apart, from midnight on. *)
Definition hourly (vs : list Q) : list sample :=
  series (map (fun k => (Z.of_nat k * hour)%Z) (seq 0 (length vs))) vs.

(** A series in which the reading of the second hour is stamped like the
    reading of the first hour. *)
Definition duplicate_stamp : list sample :=
  series [0; hour; hour; 3 * hour]%Z [1; 5; 1; 3]%Q.

(** A stamp between 1970-01-01 and the end of the datetime64[ns] range.
    The difference of two such stamps fits an int64. *)
Definition since_epoch (t : Z) : Prop := (0 <= t < 2 ^ 63)%Z.

(** ** What the notebook shows, and reference definitions for it *)

(** The merged frame keeps its first row through the loop. *)
Definition first_row_kept (rs : list extremum) : Prop :=
  match rs with
  | [] => False
  | [_] => True
  | a :: b :: _ => type a <> type b
  end.

(** The stamps of [df] grow from each row to the next. *)
Definition strictly_ascending (d : list sample) : Prop :=
  forall i j, i < j -> j < length d ->
              (Time (nth i d origin) < Time (nth j d origin))%Z.

(** A row of [extrema[['Time', 'Delta_Time', 'NH3', 'Delta_NH3', 'NH3/Hour']]]. *)
Record shown_row : Type := mkShown {
  shown_Time : Z;
  shown_Delta_Time : option Z;
  shown_NH3 : Q;
  shown_Delta_NH3 : option Q;
  shown_NH3_per_Hour : float64
}.

Definition shown_columns (r : rate_row) : shown_row :=
  mkShown (Time (point (base (deltas r)))) (Delta_Time (deltas r))
          (NH3 (point (base (deltas r)))) (Delta_NH3 (deltas r))
          (NH3_per_Hour r).

(** [extrema['type'] == t]: one boolean per row. *)
Definition type_is (t : tag) (extrema : frame rate_row) : list bool :=
  map (fun lr => tag_eqb (type (base (deltas (snd lr)))) t) extrema.

(** [extrema[[...]][extrema['type'] == t]]: the table handed to
    [display_side_by_side] under the caption "Maxima" or "Minima". *)
Definition shown_table (t : tag) (extrema : frame rate_row) : frame shown_row :=
  select (type_is t extrema)
         (map (fun lr => (fst lr, shown_columns (snd lr))) extrema).

(** The points of a curve of [plotrates]:
    [extrema['Time'][extrema['type'] == t]] against
    [extrema['NH3/Hour'][extrema['type'] == t]]. *)
Definition curve (t : tag) (extrema : frame rate_row) : list (Z * float64) :=
  combine
    (rows (select (type_is t extrema)
             (map (fun lr => (fst lr, Time (point (base (deltas (snd lr)))))) extrema)))
    (rows (select (type_is t extrema)
             (map (fun lr => (fst lr, NH3_per_Hour (snd lr))) extrema))).

(** ** The helper [display_side_by_side]

    A Python [str] is modelled as a [string] of characters below 256, a
    [dict] as the list of its items in insertion order.  The styled HTML of
    a table under a caption is a parameter, [repr_html]. *)

Module Display.
Import Ascii String.

(** [d[k] = v]: a present key keeps its place and takes the new value, a
    new key goes to the end. *)
Fixpoint dict_set {V : Type} (k : string) (v : V) (d : list (string * V))
  : list (string * V) :=
  match d with
  | [] => [(k, v)]
  | (k', v') :: d' =>
      if (k' =? k)%string then (k', v) :: d' else (k', v') :: dict_set k v d'
  end.

(** [dict(pairs)] *)
Definition dict {V : Type} (pairs : list (string * V)) : list (string * V) :=
  fold_left (fun d kv => dict_set (fst kv) (snd kv) d) pairs [].

(** ["\xa0\xa0\xa0"] *)
Definition nbsp3 : string :=
  String (ascii_of_nat 160) (String (ascii_of_nat 160)
    (String (ascii_of_nat 160) EmptyString)).

(** The string handed to [display(HTML(...))]. *)
Definition display_side_by_side {Table : Type}
    (repr_html : Table -> string -> string)
    (dfs : list Table) (captions : list string) : string :=
  let combined := dict (combine captions dfs) in
  fold_left
    (fun output cd => append (append output (repr_html (snd cd) (fst cd))) nbsp3)
    combined EmptyString.

(** The last value paired with [k], if any. *)
Fixpoint last_with {V : Type} (k : string) (pairs : list (string * V)) : option V :=
  match pairs with
  | [] => None
  | (k', v) :: t =>
      match last_with k t with
      | Some w => Some w
      | None => if (k' =? k)%string then Some v else None
      end
  end.

(** One rendered table after the other, each followed by the spaces. *)
Definition blocks {Table : Type} (repr_html : Table -> string -> string)
    (items : list (string * Table)) : string :=
  fold_right
    (fun cd rest => append (repr_html (snd cd) (fst cd)) (append nbsp3 rest))
    EmptyString items.

End Display.

(** ** The helper [create_download_link]

    [df.to_csv()] and its UTF-8 encoding are not modelled: the link is built
    from the encoded bytes, numbers from 0 to 255.  [base64.b64encode] is
    the standard Base64 of RFC 4648, with padding and without line breaks. *)

Module Download.
Import Ascii String.

Definition alphabet : list ascii :=
  list_ascii_of_string
    "ABCDEFGHIJKLMNOPQRSTUVWXYZabcdefghijklmnopqrstuvwxyz0123456789+/".

Definition pad : ascii := "="%char.

Definition b64char (n : Z) : ascii := nth (Z.to_nat n) alphabet pad.

(** Three bytes give four characters; one or two last bytes give two or
    three characters and the padding. *)
Fixpoint b64encode (bs : list Z) : list ascii :=
  match bs with
  | [] => []
  | [a] => [b64char (a / 4); b64char (a mod 4 * 16); pad; pad]
  | [a; b] =>
      [b64char (a / 4); b64char (a mod 4 * 16 + b / 16);
       b64char (b mod 16 * 4); pad]
  | a :: b :: c :: rest =>
      b64char (a / 4) :: b64char (a mod 4 * 16 + b / 16)
      :: b64char (b mod 16 * 4 + c / 64) :: b64char (c mod 64)
      :: b64encode rest
  end.

Definition dquote : string := String (ascii_of_nat 34) EmptyString.

(** The template with its three fields filled in by [str.format]. *)
Definition anchor_html (filename payload title : string) : string :=
  ("<a download=" ++ dquote ++ filename ++ dquote
   ++ " href=" ++ dquote ++ "data:text/csv;base64," ++ payload ++ dquote
   ++ " target=" ++ dquote ++ "_blank" ++ dquote ++ ">" ++ title ++ "</a>")%string.

(** The HTML of the link, from the encoded bytes of the CSV text. *)
Definition create_download_link (csv : list Z) (title filename : string) : string :=
  let b64 := b64encode csv in
  let payload := string_of_list_ascii b64 in
  anchor_html filename payload title.

Definition default_title : string := "Download CSV file".

Definition default_filename : string := "data.csv".

(** Reading Base64 back: the value of a character ... *)
Fixpoint index_of (c : ascii) (l : list ascii) (i : Z) : option Z :=
  match l with
  | [] => None
  | a :: t => if (a =? c)%char then Some i else index_of c t (i + 1)
  end.

Definition b64value (c : ascii) : option Z := index_of c alphabet 0.

(** ... and the bytes of a padded text. *)
Fixpoint b64decode (cs : list ascii) : option (list Z) :=
  match cs with
  | [] => Some []
  | c0 :: c1 :: c2 :: c3 :: rest =>
      match b64value c0, b64value c1 with
      | Some s0, Some s1 =>
          if (c2 =? pad)%char then
            if (c3 =? pad)%char then
              match rest with
              | [] => Some [s0 * 4 + s1 / 16]
              | _ => None
              end
            else None
          else
            match b64value c2 with
            | Some s2 =>
                if (c3 =? pad)%char then
                  match rest with
                  | [] => Some [s0 * 4 + s1 / 16; s1 mod 16 * 16 + s2 / 4]
                  | _ => None
                  end
                else
                  match b64value c3, b64decode rest with
                  | Some s3, Some bs =>
                      Some (s0 * 4 + s1 / 16 :: s1 mod 16 * 16 + s2 / 4
                            :: s2 mod 4 * 64 + s3 :: bs)
                  | _, _ => None
                  end
            | None => None
            end
      | _, _ => None
      end
  | _ => None
  end%Z.

Definition is_byte (b : Z) : Prop := (0 <= b < 256)%Z.

(** The character of the value [k] is read back as [k] and is not the
    padding. *)
Definition sextet_ok (k : nat) : bool :=
  match b64value (b64char (Z.of_nat k)) with
  | Some m => (m =? Z.of_nat k)%Z
  | None => false
  end && negb (b64char (Z.of_nat k) =? pad)%char.

End Download.

(** ** Frames: labels, lookup and drop *)

Section FrameFacts.

Context {A : Type}.

Lemma enum_from_cons (i : nat) (a : A) (t : list A) :
  enum_from i (a :: t) = (i, a) :: enum_from (S i) t.
Proof. reflexivity. Qed.

Lemma enum_from_labels_ge (t : list A) :
  forall i l r, In (l, r) (enum_from i t) -> i <= l.
Proof.
  induction t as [|a t IH]; intros i l r H.
  - contradiction.
  - rewrite enum_from_cons in H. destruct H as [H|H].
    + inversion H; lia.
    + apply IH in H. lia.
Qed.

Lemma enum_from_length (t : list A) (i : nat) : length (enum_from i t) = length t.
Proof.
  unfold enum_from. rewrite length_combine, length_seq. apply Nat.min_id.
Qed.

Lemma rows_enum_from (t : list A) : forall i, rows (enum_from i t) = t.
Proof.
  induction t as [|a t IH]; intro i; [reflexivity|].
  rewrite enum_from_cons. unfold rows in *. simpl. now rewrite IH.
Qed.

Lemma loc_app_skip (kept f : frame A) (j : nat) :
  (forall l, In l (labels kept) -> l <> j) ->
  loc (kept ++ f) j = loc f j.
Proof.
  induction kept as [|[l r] kept IH]; intro H; [reflexivity|].
  simpl. destruct (Nat.eqb_spec l j) as [E|_].
  - exfalso. apply (H l); [now left|exact E].
  - apply IH. intros l' Hl'. apply H. now right.
Qed.

Lemma filter_all (p : nat * A -> bool) (f : frame A) :
  (forall x, In x f -> p x = true) -> filter p f = f.
Proof.
  induction f as [|x f IH]; intro H; [reflexivity|].
  simpl. rewrite (H x) by now left. f_equal. apply IH.
  intros y Hy. apply H. now right.
Qed.

(** Dropping the label of a row whose neighbours carry other labels. *)
Lemma drop_middle (kept after : frame A) (i : nat) (a : A) :
  (forall l, In l (labels kept) -> l <> i) ->
  (forall l, In l (labels after) -> l <> i) ->
  drop i (kept ++ (i, a) :: after) = Ok (kept ++ after).
Proof.
  intros Hk Ha. unfold drop.
  rewrite loc_app_skip by exact Hk. simpl. rewrite Nat.eqb_refl.
  rewrite filter_app. simpl. rewrite Nat.eqb_refl. simpl.
  rewrite !filter_all; [reflexivity| |].
  - intros [l r] Hin. simpl. apply negb_true_iff, Nat.eqb_neq.
    apply Ha. unfold labels. now apply (in_map fst) in Hin.
  - intros [l r] Hin. simpl. apply negb_true_iff, Nat.eqb_neq.
    apply Hk. unfold labels. now apply (in_map fst) in Hin.
Qed.

Lemma loc_absent (f : frame A) (i : nat) :
  (forall l, In l (labels f) -> l <> i) -> loc f i = None.
Proof.
  induction f as [|[l r] f IH]; intro H; [reflexivity|].
  simpl. destruct (Nat.eqb_spec l i) as [E|_].
  - exfalso. apply (H l); [now left|exact E].
  - apply IH. intros l' Hl'. apply H. now right.
Qed.

Lemma drop_absent (f : frame A) (i : nat) :
  (forall l, In l (labels f) -> l <> i) -> drop i f = Raise (KeyError i).
Proof.
  intro H. unfold drop. now rewrite loc_absent.
Qed.

Lemma labels_enum_from_ne (t : list A) (i j : nat) :
  j < i -> forall l, In l (labels (enum_from i t)) -> l <> j.
Proof.
  intros Hlt l Hin. unfold labels in Hin. apply in_map_iff in Hin.
  destruct Hin as [[l' r] [E Hin]]. simpl in E. subst l'.
  apply enum_from_labels_ge in Hin. lia.
Qed.

End FrameFacts.

(** ** The merged frame is the time-ordered union of its two arguments *)

Lemma key_leb_total (a b : extremum) : key_leb a b = false -> key_leb b a = true.
Proof.
  unfold key_leb.
  destruct (Z.ltb_spec (Time (point a)) (Time (point b))) as [H1|H1];
    [discriminate|].
  destruct (Z.ltb_spec (Time (point b)) (Time (point a))) as [H2|H2];
    [reflexivity|].
  destruct (Qltb (NH3 (point a)) (NH3 (point b))); [discriminate|].
  destruct (Qltb (NH3 (point b)) (NH3 (point a))); [reflexivity|].
  now destruct (type a), (type b).
Qed.

Lemma key_leb_time (a b : extremum) :
  key_leb a b = true -> (Time (point a) <= Time (point b))%Z.
Proof.
  unfold key_leb.
  destruct (Z.ltb_spec (Time (point a)) (Time (point b))) as [H1|H1]; [lia|].
  destruct (Z.ltb_spec (Time (point b)) (Time (point a))) as [H2|H2];
    [discriminate|lia].
Qed.

Lemma insert_sorted (a : extremum) (l : list extremum) :
  Sorted (fun u v => key_leb u v = true) l ->
  Sorted (fun u v => key_leb u v = true) (insert a l).
Proof.
  induction l as [|b l IH]; intro H.
  - repeat constructor.
  - simpl. destruct (key_leb a b) eqn:E.
    + constructor; [exact H|]. now constructor.
    + inversion H as [|? ? Hs Hh]; subst. constructor; [now apply IH|].
      destruct l as [|c l]; simpl.
      * constructor. now apply key_leb_total.
      * destruct (key_leb a c); constructor.
        -- now apply key_leb_total.
        -- now inversion Hh.
Qed.

Lemma sort_sorted (l : list extremum) :
  Sorted (fun u v => key_leb u v = true) (sort l).
Proof.
  induction l as [|a l IH]; [constructor|]. now apply insert_sorted.
Qed.

Lemma insert_permutation (a : extremum) (l : list extremum) :
  Permutation (insert a l) (a :: l).
Proof.
  induction l as [|b l IH]; [reflexivity|].
  simpl. destruct (key_leb a b); [reflexivity|].
  rewrite IH. apply perm_swap.
Qed.

Lemma sort_permutation (l : list extremum) : Permutation (sort l) l.
Proof.
  induction l as [|a l IH]; [reflexivity|].
  simpl. rewrite insert_permutation. now constructor.
Qed.

Lemma merge_ordered_time_ordered (l r : list extremum) :
  merge_ordered l r = enumerate (rows (merge_ordered l r)) /\
  Permutation (rows (merge_ordered l r)) (l ++ r) /\
  Sorted (fun u v => (Time (point u) <= Time (point v))%Z) (rows (merge_ordered l r)).
Proof.
  unfold merge_ordered, enumerate. rewrite rows_enum_from.
  split; [reflexivity|]. split; [apply sort_permutation|].
  pose proof (sort_sorted (l ++ r)) as H.
  induction H as [|a t Hs IH Hh]; constructor; [exact IH|].
  destruct Hh as [|b t Hab]; constructor. now apply key_leb_time.
Qed.

(** ** The loop invariant *)

Lemma alternation_loop_invariant (rest : list extremum) :
  forall kept i fuel log,
    (forall l, In l (labels kept) -> l < i) ->
    length rest < fuel ->
    alternation_loop fuel i (i + length rest) (kept ++ enum_from i rest) log =
    mkLoop (kept ++ keep_last label_tag (enum_from i rest))
           (log ++ adjacent (enum_from i rest))
           (Ok tt).
Proof.
  induction rest as [|a rest IH]; intros kept i fuel log Hkept Hfuel.
  - destruct fuel as [|fuel]; [simpl in Hfuel; lia|].
    simpl. replace (i + 1 <? i + 0) with false
      by (symmetry; apply Nat.ltb_ge; lia).
    now rewrite !app_nil_r.
  - destruct fuel as [|fuel]; [simpl in Hfuel; lia|].
    destruct rest as [|b rest].
    + simpl. replace (i + 1 <? i + 1) with false
        by (symmetry; apply Nat.ltb_ge; lia).
      now rewrite app_nil_r.
    + cbn [alternation_loop].
      replace (i + 1 <? i + length (a :: b :: rest)) with true
        by (symmetry; apply Nat.ltb_lt; simpl; lia).
      assert (Hne : forall j, i <= j -> forall l, In l (labels kept) -> l <> j)
        by (intros j Hj l Hl; apply Hkept in Hl; lia).
      rewrite !enum_from_cons.
      rewrite (loc_app_skip kept _ (Hne i (Nat.le_refl i))).
      rewrite (loc_app_skip kept _ (Hne (i + 1) (Nat.le_add_r i 1))).
      cbn [loc]. rewrite Nat.eqb_refl.
      replace (i =? i + 1) with false by (symmetry; apply Nat.eqb_neq; lia).
      replace (S i =? i + 1) with true by (symmetry; apply Nat.eqb_eq; lia).
      rewrite <- enum_from_cons.
      replace (i + length (a :: b :: rest)) with (S i + length (b :: rest))
        by (simpl; lia).
      replace (i + 1) with (S i) by lia.
      cbn [keep_last]. rewrite enum_from_cons at 3 4. cbn [keep_last].
      unfold label_tag at 1 2. cbn [snd].
      destruct (tag_eqb (type a) (type b)) eqn:Etag.
      * rewrite drop_middle.
        -- rewrite (IH kept (S i) fuel); [| |simpl in *; lia].
           ++ f_equal. unfold adjacent. rewrite !enum_from_cons. simpl.
              now rewrite <- app_assoc.
           ++ intros l Hl. apply Hkept in Hl. lia.
        -- apply Hne, Nat.le_refl.
        -- apply labels_enum_from_ne. lia.
      * replace (kept ++ (i, a) :: enum_from (S i) (b :: rest))
          with ((kept ++ [(i, a)]) ++ enum_from (S i) (b :: rest))
          by now rewrite <- app_assoc.
        rewrite (IH (kept ++ [(i, a)]) (S i) fuel); [| |simpl in *; lia].
        -- f_equal.
           ++ now rewrite <- app_assoc.
           ++ unfold adjacent. rewrite !enum_from_cons. simpl.
              now rewrite <- app_assoc.
        -- intros l Hl. unfold labels in Hl. rewrite map_app in Hl.
           apply in_app_or in Hl. destruct Hl as [Hl|Hl].
           ++ apply Hkept in Hl. lia.
           ++ simpl in Hl. destruct Hl as [<-|[]]. lia.
Qed.

(** ** The loop against its reference definitions *)

Lemma alternation_keep_last (rs : list extremum) :
  alternation (enumerate rs) =
  mkLoop (keep_last label_tag (enumerate rs)) (adjacent (enumerate rs)) (Ok tt).
Proof.
  unfold alternation, enumerate. rewrite enum_from_length.
  apply (@alternation_loop_invariant rs [] 0 (S (length rs)) []).
  - intros l [].
  - lia.
Qed.

Lemma nth_error_middle {A} (pre : list A) (a : A) (post : list A) :
  nth_error (pre ++ a :: post) (length pre) = Some a.
Proof.
  rewrite nth_error_app2 by lia. now rewrite Nat.sub_diag.
Qed.

Lemma keep_last_cons2 {A} (tg : A -> tag) (a b : A) (t : list A) :
  keep_last tg (a :: b :: t) =
  if tag_eqb (tg a) (tg b) then keep_last tg (b :: t) else a :: keep_last tg (b :: t).
Proof. reflexivity. Qed.

Lemma keep_last_survives (rest : list extremum) :
  forall pre,
    keep_last label_tag (enum_from (length pre) rest) =
    filter (fun lr => survives (pre ++ rest) (fst lr)) (enum_from (length pre) rest).
Proof.
  induction rest as [|a rest IH]; intro pre; [reflexivity|].
  specialize (IH (pre ++ [a])).
  rewrite <- app_assoc in IH. simpl app in IH.
  rewrite length_app in IH. simpl length in IH. rewrite Nat.add_1_r in IH.
  rewrite enum_from_cons. cbn [filter fst].
  assert (Ha : nth_error (pre ++ a :: rest) (length pre) = Some a)
    by apply nth_error_middle.
  destruct rest as [|b rest].
  - simpl. unfold survives. rewrite length_app. simpl length.
    rewrite Nat.eqb_refl. reflexivity.
  - rewrite (enum_from_cons _ b rest) at 1. rewrite keep_last_cons2.
    rewrite <- enum_from_cons. rewrite IH.
    unfold label_tag at 1 2. cbn [snd].
    unfold survives at 3. rewrite Ha.
    replace (nth_error (pre ++ a :: b :: rest) (length pre + 1)) with (Some b).
    2:{ replace (pre ++ a :: b :: rest) with ((pre ++ [a]) ++ b :: rest)
          by now rewrite <- app_assoc.
        replace (length pre + 1) with (length (pre ++ [a]))
          by now rewrite length_app.
        symmetry. apply nth_error_middle. }
    replace (length pre + 1 =? length (pre ++ a :: b :: rest)) with false.
    2:{ symmetry. apply Nat.eqb_neq. rewrite length_app. simpl. lia. }
    simpl orb. now destruct (tag_eqb (type a) (type b)).
Qed.

Lemma in_enum_from {A} (t : list A) :
  forall i l r, In (l, r) (enum_from i t) <-> i <= l /\ nth_error t (l - i) = Some r.
Proof.
  induction t as [|a t IH]; intros i l r.
  - split; [intros []|]. intros [_ H]. now destruct (l - i).
  - rewrite enum_from_cons. simpl. rewrite IH. split.
    + intros [H|[Hle H]].
      * inversion H; subst. split; [lia|]. now rewrite Nat.sub_diag.
      * split; [lia|]. replace (l - i) with (S (l - S i)) by lia. exact H.
    + intros [Hle H]. destruct (Nat.eq_dec i l) as [->|Hne].
      * left. rewrite Nat.sub_diag in H. simpl in H. congruence.
      * right. split; [lia|].
        replace (l - i) with (S (l - S i)) in H by lia. exact H.
Qed.

Lemma tag_eqb_eq (a b : tag) : tag_eqb a b = true <-> a = b.
Proof. destruct a, b; simpl; split; congruence. Qed.

Lemma tag_eqb_neq (a b : tag) : tag_eqb a b = false <-> a <> b.
Proof. destruct a, b; simpl; split; congruence. Qed.

Lemma keep_last_head {A} (tg : A -> tag) (t : list A) :
  forall b, exists c rest, keep_last tg (b :: t) = c :: rest /\ tg c = tg b.
Proof.
  induction t as [|b' t IH]; intro b.
  - now exists b, [].
  - rewrite keep_last_cons2. destruct (tag_eqb (tg b) (tg b')) eqn:E.
    + destruct (IH b') as (c & rest & Hc & Ht).
      exists c, rest. split; [exact Hc|].
      apply tag_eqb_eq in E. congruence.
    + now exists b, (keep_last tg (b' :: t)).
Qed.

Lemma keep_last_alternates {A} (tg : A -> tag) (l : list A) :
  alternates (map tg (keep_last tg l)).
Proof.
  induction l as [|a l IH]; [exact I|].
  destruct l as [|b l]; [exact I|].
  rewrite keep_last_cons2. destruct (tag_eqb (tg a) (tg b)) eqn:E; [exact IH|].
  destruct (keep_last_head tg l b) as (c & rest & Hc & Ht).
  rewrite Hc in *. simpl. split; [|exact IH].
  apply tag_eqb_neq in E. congruence.
Qed.

Lemma keep_last_incl {A} (tg : A -> tag) (l : list A) :
  forall x, In x (keep_last tg l) -> In x l.
Proof.
  induction l as [|a l IH]; intros x H; [exact H|].
  destruct l as [|b l]; [exact H|].
  rewrite keep_last_cons2 in H. destruct (tag_eqb (tg a) (tg b)).
  - right. now apply IH.
  - destruct H as [H|H]; [now left|right; now apply IH].
Qed.

(** C10: the in-place loop computes the pure rebuild.  On a merged frame of
    n rows the loop stops normally (every lookup and every drop finds its
    label), it has compared exactly the n-1 pairs of original neighbours,
    each once and in order, and the row of original position i is still
    there if and only if i = n-1 or its tag differs from the tag of the row
    of original position i+1. *)
Theorem alternation_refines_rebuild (rs : list extremum) :
  let r := alternation (enumerate rs) in
  final r = rebuild rs /\
  how r = Ok tt /\
  compared r = adjacent (enumerate rs) /\
  forall i a,
    In (i, a) (final r) <->
    nth_error rs i = Some a /\
    (i + 1 = length rs \/
     exists b, nth_error rs (i + 1) = Some b /\ type a <> type b).
Proof.
  cbv zeta. rewrite alternation_keep_last. cbn [final how compared].
  assert (E : keep_last label_tag (enumerate rs) = rebuild rs)
    by apply (keep_last_survives rs []).
  rewrite E. split; [reflexivity|]. split; [reflexivity|].
  split; [reflexivity|]. intros i a. unfold rebuild, enumerate.
  rewrite filter_In, in_enum_from, Nat.sub_0_r. cbn [fst]. unfold survives.
  split.
  - intros [[_ Hin] Hs]. split; [exact Hin|].
    apply orb_true_iff in Hs. destruct Hs as [Hs|Hs].
    + left. now apply Nat.eqb_eq.
    + right. rewrite Hin in Hs.
      destruct (nth_error rs (i + 1)) as [b|]; [|discriminate].
      exists b. split; [reflexivity|].
      apply negb_true_iff in Hs. now apply tag_eqb_neq.
  - intros [Hin Hs]. split; [split; [lia|exact Hin]|].
    apply orb_true_iff. destruct Hs as [Hs|(b & Hb & Hs)].
    + left. now apply Nat.eqb_eq.
    + right. rewrite Hin, Hb. apply negb_true_iff. now apply tag_eqb_neq.
Qed.

(** C1: after the alternation pass over a merged frame no two neighbouring
    rows carry the same tag: whatever the rows are, for the frame
    [pd.merge_ordered] builds from any [maxima] and [minima], and so for
    every input series and every pair of cutoffs. *)
Theorem alternation_alternates :
  (forall rs : list extremum,
      alternates (map label_tag (final (alternation (enumerate rs))))) /\
  (forall l r : list extremum,
      alternates (map label_tag (final (alternation (merge_ordered l r))))) /\
  (forall (d : list sample) (hi lo : Q),
      alternates
        (map label_tag
           (final (alternation
                     (merge_ordered (detected_maxima d hi) (detected_minima d lo)))))).
Proof.
  assert (H : forall rs : list extremum,
             alternates (map label_tag (final (alternation (enumerate rs))))).
  { intro rs. rewrite alternation_keep_last. cbn [final].
    apply keep_last_alternates. }
  split; [exact H|]. split; intros; apply H.
Qed.

(** C2 (as amended): the loop is a single left-to-right pass that keeps,
    of every run of neighbours with the same tag, the last entry and
    deletes the earlier ones. *)
Theorem alternation_keeps_last_seen (rs : list extremum) :
  final (alternation (enumerate rs)) = keep_last label_tag (enumerate rs) /\
  rows (final (alternation (enumerate rs))) = keep_last type rs.
Proof.
  rewrite alternation_keep_last. cbn [final]. split; [reflexivity|].
  unfold enumerate. generalize 0.
  induction rs as [|a rs IH]; intro i; [reflexivity|].
  destruct rs as [|b rs]; [reflexivity|].
  rewrite !enum_from_cons, !keep_last_cons2. rewrite <- enum_from_cons.
  unfold label_tag at 1 2. cbn [snd].
  destruct (tag_eqb (type a) (type b)).
  - apply IH.
  - unfold rows in *. cbn [map snd]. f_equal. apply IH.
Qed.

(** C2 (as stated) fails: of two neighbouring maxima the loop deletes the
    first-seen one and keeps the later one. *)
Lemma alternation_not_first_seen :
  final (alternation (enumerate two_maxima)) <>
  keep_first label_tag (enumerate two_maxima).
Proof. vm_compute. discriminate. Qed.

(** ** Differences, drop and rate in closed form *)

Lemma add_deltas_tail (rest : frame extremum) :
  forall e0,
    map (fun x => (fst (fst x), mkDelta (snd (fst x)) (fst (snd x)) (snd (snd x))))
        (combine rest
           (combine (diff_from Qminus (NH3 (point e0))
                       (map (fun r => NH3 (point r)) (rows rest)))
                    (diff_from timedelta (Time (point e0))
                       (map (fun r => Time (point r)) (rows rest))))) =
    delta_rows e0 rest.
Proof.
  induction rest as [|[l e] rest IH]; intro e0; [reflexivity|].
  simpl. f_equal. apply IH.
Qed.

Lemma add_deltas_cons (l0 : nat) (e0 : extremum) (rest : frame extremum) :
  add_deltas ((l0, e0) :: rest) = (l0, mkDelta e0 None None) :: delta_rows e0 rest.
Proof.
  unfold add_deltas. simpl. f_equal. apply add_deltas_tail.
Qed.

Lemma labels_delta_rows (rest : frame extremum) :
  forall e0, labels (delta_rows e0 rest) = labels rest.
Proof.
  induction rest as [|[l e] rest IH]; intro e0; [reflexivity|].
  unfold labels in *. simpl. f_equal. apply IH.
Qed.

Lemma labels_add_deltas (f : frame extremum) : labels (add_deltas f) = labels f.
Proof.
  destruct f as [|[l0 e0] rest]; [reflexivity|].
  rewrite add_deltas_cons. unfold labels. simpl. f_equal.
  apply labels_delta_rows.
Qed.

Lemma add_rate_delta_rows (rest : frame extremum) :
  forall l0 e0,
    add_rate (delta_rows e0 rest) = Ok (rate_table ((l0, e0) :: rest)).
Proof.
  unfold add_rate, rate_table, adjacent.
  induction rest as [|[l e] rest IH]; intros l0 e0; [reflexivity|].
  specialize (IH l e). simpl in *.
  destruct (hours_of (map Delta_Time (rows (delta_rows e rest)))) as [hs| |];
    try discriminate.
  simpl in *. inversion IH as [E]. unfold interval at 1. simpl.
  unfold hours at 1. reflexivity.
Qed.

(** The cell from the merged frame on, when the first survivor carries
    label 0 ... *)
Lemma rate_steps_first_kept (rs : list extremum) (e0 : extremum)
    (rest : frame extremum) (s : notebook) :
  keep_last label_tag (enumerate rs) = (0, e0) :: rest ->
  (forall l, In l (labels rest) -> l <> 0) ->
  rate_steps (enumerate rs) s =
  (set_extrema (WithRates (rate_table ((0, e0) :: rest))) s, Ok tt).
Proof.
  intros E Hrest. unfold rate_steps, bindc, assign, lift.
  rewrite alternation_keep_last. cbn [final how]. rewrite E.
  rewrite add_deltas_cons.
  pose proof (@drop_middle _ [] (delta_rows e0 rest) 0 (mkDelta e0 None None))
    as Hd.
  simpl app in Hd. rewrite Hd.
  - rewrite (add_rate_delta_rows rest 0 e0). reflexivity.
  - intros l [].
  - rewrite labels_delta_rows. exact Hrest.
Qed.

(** ... and when no survivor carries label 0. *)
Lemma rate_steps_first_gone (rs : list extremum) (s : notebook) :
  (forall l, In l (labels (keep_last label_tag (enumerate rs))) -> l <> 0) ->
  rate_steps (enumerate rs) s =
  (set_extrema (WithDeltas (add_deltas (keep_last label_tag (enumerate rs)))) s,
   Raise (KeyError 0)).
Proof.
  intro H. unfold rate_steps, bindc, assign, lift.
  rewrite alternation_keep_last. cbn [final how].
  rewrite drop_absent; [reflexivity|].
  now rewrite labels_add_deltas.
Qed.

Lemma keep_last_labels_ge (i : nat) (rs : list extremum) :
  forall l, In l (labels (keep_last label_tag (enum_from i rs))) -> i <= l.
Proof.
  intros l H. unfold labels in H. apply in_map_iff in H.
  destruct H as [[l' r] [E H]]. simpl in E. subst l'.
  apply keep_last_incl in H. now apply enum_from_labels_ge in H.
Qed.

(** The survivors of a frame whose first two tags are equal, or differ. *)
Lemma keep_last_enumerate_eq (a b : extremum) (rest : list extremum) :
  type a = type b ->
  keep_last label_tag (enumerate (a :: b :: rest)) =
  keep_last label_tag (enum_from 1 (b :: rest)).
Proof.
  intro E. unfold enumerate. rewrite !enum_from_cons, keep_last_cons2.
  unfold label_tag at 1 2. cbn [snd].
  apply tag_eqb_eq in E. now rewrite E.
Qed.

Lemma keep_last_enumerate_neq (a b : extremum) (rest : list extremum) :
  type a <> type b ->
  keep_last label_tag (enumerate (a :: b :: rest)) =
  (0, a) :: keep_last label_tag (enum_from 1 (b :: rest)).
Proof.
  intro E. unfold enumerate. rewrite !enum_from_cons, keep_last_cons2.
  unfold label_tag at 1 2. cbn [snd].
  apply tag_eqb_neq in E. now rewrite E.
Qed.

Lemma nth_error_adjacent {A} (l : list A) :
  forall k prev cur,
    nth_error l k = Some prev -> nth_error l (S k) = Some cur ->
    nth_error (adjacent l) k = Some (prev, cur).
Proof.
  unfold adjacent. induction l as [|a l IH]; intros k prev cur Hp Hc.
  - now destruct k.
  - destruct k as [|k].
    + simpl in *. destruct l; simpl in *; congruence.
    + destruct l as [|b l]; [now destruct k|].
      simpl in Hp. change (nth_error (b :: l) (S k) = Some cur) in Hc.
      simpl tl. change (nth_error (combine (b :: l) (tl (b :: l))) k = Some (prev, cur)).
      now apply IH.
Qed.

(** C3 fails on the series 2, 6, 4, 7, 1, 5, 2 with cutoffs 4 and 2: the
    maxima 6, 7, 5 and the minimum 1 are detected, the merged frame reads
    max, max, min, max and the loop retains the rows labelled 1, 2 and 3.
    The retained rows after the first are given their Delta_NH3 and
    Delta_Time, but [extrema.drop(0, axis=0)] then raises KeyError and the
    division is never reached: [extrema] has no column 'NH3/Hour', where
    the stated rule gives the rates -6 and 4 per hour. *)
Example retained_rows_left_without_rate :
  let max7 := mkExtremum (mkSample (3 * hour) 7) Tmax in
  let min1 := mkExtremum (mkSample (4 * hour) 1) Tmin in
  let max5 := mkExtremum (mkSample (5 * hour) 5) Tmax in
  let d := hourly [2; 6; 4; 7; 1; 5; 2]%Q in
  let merged := merge_ordered (detected_maxima d 4) (detected_minima d 2) in
  let out := pipeline (fresh d 4 2) in
  final (alternation merged) = [(1, max7); (2, min1); (3, max5)] /\
  rate_table (final (alternation merged)) =
    [(2, mkRate (mkDelta min1 (Some (1 - 7)%Q) (Some hour))
                (Finite ((1 - 7) / hours hour)%Q));
     (3, mkRate (mkDelta max5 (Some (5 - 1)%Q) (Some hour))
                (Finite ((5 - 1) / hours hour)%Q))] /\
  ((1 - 7) / hours hour == -6)%Q /\
  ((5 - 1) / hours hour == 4)%Q /\
  extrema (fst out) =
    WithDeltas [(1, mkDelta max7 None None);
                (2, mkDelta min1 (Some (1 - 7)%Q) (Some hour));
                (3, mkDelta max5 (Some (5 - 1)%Q) (Some hour))] /\
  (forall table, extrema (fst out) <> WithRates table) /\
  snd out = Raise (KeyError 0).
Proof.
  vm_compute. repeat split; try reflexivity; intros; discriminate.
Qed.

(** C5: when the first two rows of the merged frame carry the same tag, the
    loop deletes the row labelled 0, [extrema.drop(0, axis=0)] then finds no
    such label, and the cell stops at KeyError with [extrema] still holding
    the survivors with their differences: no rate is computed. *)
Theorem leading_pair_raises_KeyError (a b : extremum) (rest : list extremum)
    (s : notebook) :
  type a = type b ->
  let merged := enumerate (a :: b :: rest) in
  loc (final (alternation merged)) 0 = None /\
  rate_steps merged s =
  (set_extrema (WithDeltas (add_deltas (final (alternation merged)))) s,
   Raise (KeyError 0)).
Proof.
  intros E merged. subst merged. rewrite alternation_keep_last. cbn [final].
  assert (H : forall l,
             In l (labels (keep_last label_tag (enumerate (a :: b :: rest)))) ->
             l <> 0).
  { rewrite (@keep_last_enumerate_eq a b rest E).
    intros l Hl. apply keep_last_labels_ge in Hl. lia. }
  split; [now apply loc_absent|now apply rate_steps_first_gone].
Qed.

Lemma leading_pair_raises_KeyError_witness :
  loc (final (alternation (enumerate two_maxima))) 0 = None /\
  rate_steps (enumerate two_maxima) blank =
  (set_extrema (WithDeltas (add_deltas (final (alternation (enumerate two_maxima))))) blank,
   Raise (KeyError 0)).
Proof.
  apply (@leading_pair_raises_KeyError
           (mkExtremum (mkSample 0 5) Tmax)
           (mkExtremum (mkSample 3600000000000 6) Tmax) [] blank).
  reflexivity.
Defined.

(** ** The local-maximum scan *)

Lemma Qltb_lt (a b : Q) : Qltb a b = true <-> (a < b)%Q.
Proof.
  unfold Qltb. destruct (Qcompare_spec a b) as [E|E|E]; split; intro H;
    try discriminate; try reflexivity; lra.
Qed.

Lemma Qltb_ge (a b : Q) : Qltb a b = false <-> (b <= a)%Q.
Proof.
  unfold Qltb. destruct (Qcompare_spec a b) as [E|E|E]; split; intro H;
    try discriminate; try reflexivity; lra.
Qed.

Lemma look_ahead_spec (x : list Q) (i i_max : nat) :
  forall fuel i_ahead,
    i_ahead <= i_max -> i_max - i_ahead <= fuel ->
    let r := look_ahead fuel x i i_ahead i_max in
    i_ahead <= r <= i_max /\
    (forall k, i_ahead <= k < r -> (at_ x k == at_ x i)%Q) /\
    (r < i_max -> ~ (at_ x r == at_ x i)%Q).
Proof.
  induction fuel as [|fuel IH]; intros i_ahead Hle Hfuel.
  - simpl. repeat split; try lia.
  - simpl. destruct (Nat.ltb_spec i_ahead i_max) as [Hlt|Hge]; simpl.
    + destruct (Qeq_bool (at_ x i_ahead) (at_ x i)) eqn:E.
      * destruct (IH (i_ahead + 1)) as (H1 & H2 & H3); [lia|lia|].
        repeat split; try lia; [|exact H3].
        intros k Hk. destruct (Nat.eq_dec k i_ahead) as [->|Hne].
        -- now apply Qeq_bool_iff.
        -- apply H2. lia.
      * repeat split; try lia. intros _. now apply Qeq_bool_neq.
    + repeat split; lia.
Qed.

Lemma half_sum_between (l r : nat) : l <= r -> l <= (l + r) / 2 <= r.
Proof.
  intro H. split.
  - apply Nat.div_le_lower_bound; lia.
  - apply Nat.Div0.div_le_upper_bound; lia.
Qed.

Lemma local_maxima_loop_spec (x : list Q) :
  forall fuel i,
    1 <= i -> (length x - 1) - i <= fuel ->
    forall m,
      In m (local_maxima_loop fuel x i (length x - 1)) <->
      exists l r, i <= l /\ plateau_peak x l r /\ m = (l + r) / 2.
Proof.
  set (i_max := length x - 1).
  induction fuel as [|fuel IH]; intros i Hi Hfuel m.
  - simpl. split; [intros []|].
    intros (l & r & Hl & (_ & Hlr & Hr & _) & _). lia.
  - cbn [local_maxima_loop].
    destruct (Nat.ltb_spec i i_max) as [Hlt|Hge].
    2:{ split; [intros []|].
        intros (l & r & Hl & (_ & Hlr & Hr & _) & _). lia. }
    assert (Hstep : Qltb (at_ x (i - 1)) (at_ x i) = false \/
                    ~ (exists r, plateau_peak x i r) ->
                    (In m (local_maxima_loop fuel x (i + 1) i_max) <->
                     exists l r, i <= l /\ plateau_peak x l r /\ m = (l + r) / 2)).
    { intro Hno. rewrite IH by lia. split.
      - intros (l & r & Hl & Hp & Hm). exists l, r.
        split; [lia|split; assumption].
      - intros (l & r & Hl & Hp & Hm). exists l, r.
        split; [|split; assumption].
        destruct (Nat.eq_dec l i) as [->|Hne]; [|lia]. exfalso.
        destruct Hno as [Hno|Hno].
        + apply Qltb_ge in Hno. destruct Hp as (_ & _ & _ & Hp & _). lra.
        + apply Hno. now exists r. }
    destruct (Qltb (at_ x (i - 1)) (at_ x i)) eqn:Eprev; [|apply Hstep; now left].
    destruct (@look_ahead_spec x i i_max i_max (i + 1)) as (Ha1 & Ha2 & Ha3);
      [lia|lia|].
    set (i_ahead := look_ahead i_max x i (i + 1) i_max) in *.
    assert (Hflat : forall k, i <= k < i_ahead -> (at_ x k == at_ x i)%Q).
    { intros k Hk. destruct (Nat.eq_dec k i) as [->|Hne]; [reflexivity|].
      apply Ha2. lia. }
    destruct (Qltb (at_ x i_ahead) (at_ x i)) eqn:Enext.
    + apply Qltb_lt in Enext. apply Qltb_lt in Eprev.
      assert (Hfound : plateau_peak x i (i_ahead - 1)).
      { unfold plateau_peak. repeat split; try lia.
        - exact Eprev.
        - intros k Hk. apply Hflat. lia.
        - now replace (i_ahead - 1 + 1) with i_ahead by lia. }
      cbn [In]. rewrite IH by lia. split.
      * intros [Hm|(l & r & Hl & Hp & Hm)].
        -- exists i, (i_ahead - 1). split; [lia|split; [exact Hfound|]].
           subst m. reflexivity.
        -- exists l, r. split; [lia|split; assumption].
      * intros (l & r & Hl & Hp & Hm).
        destruct Hp as (Hp1 & Hp2 & Hp3 & Hp4 & Hp5 & Hp6).
        destruct (Nat.eq_dec l i) as [->|Hne].
        -- left. assert (r = i_ahead - 1); [|subst; reflexivity].
           destruct (Nat.lt_trichotomy r (i_ahead - 1)) as [Hr|[Hr|Hr]];
             [exfalso|exact Hr|exfalso].
           ++ assert (at_ x (r + 1) == at_ x i)%Q by (apply Hflat; lia). lra.
           ++ assert (at_ x i_ahead == at_ x i)%Q by (apply Hp5; lia). lra.
        -- right. exists l, r.
           split; [|split; [unfold plateau_peak; tauto|assumption]].
           destruct (Nat.le_gt_cases l i_ahead) as [Hle|Hgt]; [exfalso|lia].
           destruct (Nat.eq_dec l i_ahead) as [->|Hne'].
           ++ assert (at_ x (i_ahead - 1) == at_ x i)%Q by (apply Hflat; lia). lra.
           ++ assert (at_ x (l - 1) == at_ x i)%Q by (apply Hflat; lia).
              assert (at_ x l == at_ x i)%Q by (apply Hflat; lia). lra.
    + apply Hstep. right. intros (r & Hp).
      destruct Hp as (Hp1 & Hp2 & Hp3 & Hp4 & Hp5 & Hp6).
      apply Qltb_ge in Enext.
      destruct (Nat.lt_trichotomy (r + 1) i_ahead) as [Hr|[Hr|Hr]].
      * assert (at_ x (r + 1) == at_ x i)%Q by (apply Hflat; lia). lra.
      * rewrite Hr in Hp6. lra.
      * assert (at_ x i_ahead == at_ x i)%Q by (apply Hp5; lia).
        apply Ha3; [unfold i_max; lia|assumption].
Qed.

Lemma local_maxima_1d_spec (x : list Q) (m : nat) :
  In m (local_maxima_1d x) <-> local_peak x m.
Proof.
  unfold local_maxima_1d. cbv zeta. rewrite local_maxima_loop_spec by lia.
  unfold local_peak. split.
  - intros (l & r & _ & Hp & Hm). now exists l, r.
  - intros (l & r & Hp & Hm). exists l, r.
    split; [apply Hp|split; assumption].
Qed.

Lemma local_peak_interior (x : list Q) (i : nat) :
  local_peak x i -> 1 <= i /\ i + 1 < length x.
Proof.
  intros (l & r & (H1 & H2 & H3 & _) & ->).
  pose proof (half_sum_between H2). lia.
Qed.

(** ** [find_peaks] and the cell "Detect peaks" in closed form *)

Lemma select_map_filter {A} (p : A -> bool) (l : list A) :
  select (map p l) l = filter p l.
Proof.
  induction l as [|a l IH]; [reflexivity|].
  simpl. destruct (p a); now rewrite IH.
Qed.

Lemma peak_prominences_in_range (x : list Q) (peaks : list nat) :
  (forall p, In p peaks -> p < length x) ->
  peak_prominences x peaks = Ok (map (prominence x) peaks).
Proof.
  induction peaks as [|p peaks IH]; intro H; [reflexivity|].
  simpl. unfold prominence_of.
  replace (p <? length x) with true
    by (symmetry; apply Nat.ltb_lt, H; now left).
  simpl. rewrite IH; [reflexivity|].
  intros q Hq. apply H. now right.
Qed.

Lemma find_peaks_closed_form (x : list Q) (height floor : Q) :
  find_peaks x height floor =
  Ok (filter (fun i => Qle_bool floor (prominence x i))
        (filter (fun i => Qle_bool height (at_ x i)) (local_maxima_1d x))).
Proof.
  unfold find_peaks, select_by_property.
  rewrite map_map, select_map_filter.
  rewrite peak_prominences_in_range.
  - simpl. now rewrite map_map, select_map_filter.
  - intros p Hp. apply filter_In in Hp. destruct Hp as [Hp _].
    apply local_maxima_1d_spec, local_peak_interior in Hp. lia.
Qed.

Lemma in_find_peaks (x : list Q) (height floor : Q) (ps : list nat) (i : nat) :
  find_peaks x height floor = Ok ps ->
  In i ps <->
  local_peak x i /\ (height <= at_ x i)%Q /\ (floor <= prominence x i)%Q.
Proof.
  rewrite find_peaks_closed_form. intro E. inversion E; subst ps. clear E.
  rewrite !filter_In, local_maxima_1d_spec, !Qle_bool_iff. tauto.
Qed.

Lemma at_opp (x : list Q) (i : nat) : at_ (map Qopp x) i = (- at_ x i)%Q.
Proof.
  unfold at_. change 0%Q with (- 0)%Q at 1. apply map_nth.
Qed.

Lemma iloc_in_range (d : list sample) (ps : list nat) :
  (forall p, In p ps -> p < length d) ->
  iloc d ps = Ok (map (fun p => nth p d origin) ps).
Proof.
  induction ps as [|p ps IH]; intro H; [reflexivity|].
  simpl. destruct (nth_error d p) as [r|] eqn:E.
  - rewrite IH by (intros q Hq; apply H; now right). simpl.
    now rewrite (nth_error_nth _ _ origin E).
  - apply nth_error_None in E. specialize (H p (or_introl eq_refl)). lia.
Qed.

Lemma find_peaks_in_range (x : list Q) (height floor : Q) (ps : list nat) :
  find_peaks x height floor = Ok ps ->
  forall p, In p ps -> p < length x.
Proof.
  intros E p Hp. apply (@in_find_peaks x height floor ps p E) in Hp.
  destruct Hp as [Hp _].
  apply local_peak_interior in Hp. lia.
Qed.

(** The cell binds [maxima] and [minima] and leaves the other globals as
    they are.  It completes when at least one maximum and one minimum are
    detected; otherwise it stops at the assignment of 'type' to the frame
    without rows, with the frames bound so far still untagged. *)
Lemma detect_peaks_closed_form (d : list sample) (hi lo : Q)
    (m n : peaks_var) (e : extrema_var) :
  detect_peaks (mkNotebook d hi lo m n e) =
  match detected_maxima d hi, detected_minima d lo with
  | [], mn =>
      (mkNotebook d hi lo (Untagged []) (Untagged (map point mn)) e,
       Raise ValueError)
  | mx, [] =>
      (mkNotebook d hi lo (Tagged mx) (Untagged []) e, Raise ValueError)
  | mx, mn =>
      (mkNotebook d hi lo (Tagged mx) (Tagged mn) e, Ok tt)
  end.
Proof.
  unfold detect_peaks, detected_maxima, detected_minima.
  unfold bindc, read, lift, assign. cbn [df max_cutoff min_cutoff].
  destruct (maxima_positions (map NH3 d) hi) as [mx| |] eqn:Emx;
    try (unfold maxima_positions in Emx;
         rewrite find_peaks_closed_form in Emx; discriminate).
  destruct (minima_positions (map NH3 d) lo) as [mn| |] eqn:Emn;
    try (unfold minima_positions in Emn;
         rewrite find_peaks_closed_form in Emn; discriminate).
  cbn [df set_maxima set_minima].
  rewrite iloc_in_range.
  2:{ intros p Hp. apply (@find_peaks_in_range _ _ _ _ Emx) in Hp.
      now rewrite length_map in Hp. }
  rewrite iloc_in_range.
  2:{ intros p Hp. apply (@find_peaks_in_range _ _ _ _ Emn) in Hp.
      now rewrite !length_map in Hp. }
  unfold set_maxima, set_minima.
  destruct mx as [|p mx]; destruct mn as [|q mn]; cbn;
    rewrite ?map_map; reflexivity.
Qed.

(** ** The detection on binary64 readings *)

Module Binary64Facts.

Import Floats.
Import Binary64.

(** *** The order of the float comparisons *)

Lemma SFcompare_key (f g : spec_float) :
  SFcompare f g =
  match key f, key g with
  | Some a, Some b => Some (lex3 a b)
  | _, _ => None
  end.
Proof.
  destruct f as [s|s| |s m e], g as [t|t| |t n e'];
    try destruct s; try destruct t; try reflexivity.
  unfold SFcompare, key, lex3. cbn [fst snd].
  rewrite Z.compare_opp.
  change (Z.neg m ?= Z.neg n)%Z with (CompOpp (m ?= n)%positive).
  rewrite (Z.compare_antisym e e').
  destruct (e ?= e')%Z; reflexivity.
Qed.

Lemma lex3_refl (a : Z * Z * Z) : lex3 a a = Eq.
Proof. unfold lex3. now rewrite !Z.compare_refl. Qed.

Lemma lex3_eq (a b : Z * Z * Z) : lex3 a b = Eq -> a = b.
Proof.
  destruct a as [[a1 a2] a3], b as [[b1 b2] b3]. unfold lex3. cbn [fst snd].
  destruct (a1 ?= b1)%Z eqn:E1; try discriminate.
  destruct (a2 ?= b2)%Z eqn:E2; try discriminate.
  intro E3. apply Z.compare_eq in E1, E2, E3. now subst.
Qed.

Lemma lex3_antisym (a b : Z * Z * Z) : lex3 b a = CompOpp (lex3 a b).
Proof.
  unfold lex3.
  rewrite (Z.compare_antisym (fst (fst a)) (fst (fst b))).
  rewrite (Z.compare_antisym (snd (fst a)) (snd (fst b))).
  rewrite (Z.compare_antisym (snd a) (snd b)).
  destruct (fst (fst a) ?= fst (fst b))%Z; try reflexivity.
  destruct (snd (fst a) ?= snd (fst b))%Z; reflexivity.
Qed.

Lemma lex3_opp (a b : Z * Z * Z) : lex3 (opp3 a) (opp3 b) = lex3 b a.
Proof.
  unfold lex3, opp3. cbn [fst snd]. now rewrite !Z.compare_opp.
Qed.

Lemma key_opp (f : spec_float) : key (SFopp f) = option_map opp3 (key f).
Proof.
  destruct f as [s|s| |s m e]; try destruct s; try reflexivity.
  unfold SFopp, key, option_map, opp3. cbn [fst snd negb].
  now rewrite Z.opp_involutive.
Qed.

Lemma ltb_true (a b : float) :
  PrimFloat.ltb a b = true <->
  exists ka kb, key (Prim2SF a) = Some ka /\ key (Prim2SF b) = Some kb /\
                lex3 ka kb = Lt.
Proof.
  rewrite ltb_spec. unfold SFltb. rewrite SFcompare_key.
  destruct (key (Prim2SF a)) as [ka|], (key (Prim2SF b)) as [kb|].
  - split.
    + intro H. exists ka, kb. repeat split. now destruct (lex3 ka kb).
    + intros (ka' & kb' & E1 & E2 & H). inversion E1; inversion E2; subst.
      now rewrite H.
  - split; [discriminate|]. now intros (? & ? & _ & ? & _).
  - split; [discriminate|]. now intros (? & ? & ? & _).
  - split; [discriminate|]. now intros (? & ? & ? & _).
Qed.

Lemma eqb_true (a b : float) :
  PrimFloat.eqb a b = true <->
  exists k, key (Prim2SF a) = Some k /\ key (Prim2SF b) = Some k.
Proof.
  rewrite eqb_spec. unfold SFeqb. rewrite SFcompare_key.
  destruct (key (Prim2SF a)) as [ka|], (key (Prim2SF b)) as [kb|].
  - split.
    + intro H. exists ka. split; [reflexivity|].
      destruct (lex3 ka kb) eqn:E; try discriminate.
      apply lex3_eq in E. now subst.
    + intros (k & E1 & E2). inversion E1; inversion E2; subst.
      now rewrite lex3_refl.
  - split; [discriminate|]. now intros (? & _ & ?).
  - split; [discriminate|]. now intros (? & ? & _).
  - split; [discriminate|]. now intros (? & ? & _).
Qed.

(** A float that compares higher than another one compares equal to
    itself: it is not NaN. *)
Lemma ltb_eqb_refl (a b : float) :
  PrimFloat.ltb a b = true -> PrimFloat.eqb b b = true.
Proof.
  intro H. apply ltb_true in H. destruct H as (ka & kb & _ & E & _).
  apply eqb_true. now exists kb.
Qed.

Lemma eqb_not_ltb (a b : float) :
  PrimFloat.eqb a b = true -> PrimFloat.ltb a b = true -> False.
Proof.
  intros H1 H2. apply eqb_true in H1. apply ltb_true in H2.
  destruct H1 as (k & E1 & E2), H2 as (ka & kb & E3 & E4 & H).
  rewrite E1 in E3. rewrite E2 in E4. inversion E3; inversion E4; subst.
  rewrite lex3_refl in H. discriminate.
Qed.

(** Nothing lies strictly between two floats that compare equal. *)
Lemma eqb_not_between (a b c : float) :
  PrimFloat.eqb a c = true ->
  PrimFloat.ltb a b = true -> PrimFloat.ltb b c = true -> False.
Proof.
  intros H1 H2 H3. apply eqb_true in H1. apply ltb_true in H2, H3.
  destruct H1 as (k & E1 & E2), H2 as (ka & kb & E3 & E4 & H),
           H3 as (kb' & kc & E5 & E6 & H').
  rewrite E1 in E3. rewrite E2 in E6. rewrite E4 in E5.
  inversion E3; inversion E5; inversion E6; subst.
  rewrite lex3_antisym, H in H'. discriminate.
Qed.

Lemma eqb_eqb_not_ltb (a b c : float) :
  PrimFloat.eqb a c = true -> PrimFloat.eqb b c = true ->
  PrimFloat.ltb a b = true -> False.
Proof.
  intros H1 H2 H3. apply eqb_true in H1, H2. apply ltb_true in H3.
  destruct H1 as (k & E1 & E2), H2 as (k' & E3 & E4),
           H3 as (ka & kb & E5 & E6 & H).
  rewrite E2 in E4. rewrite E1 in E5. rewrite E3 in E6.
  inversion E4; inversion E5; inversion E6; subst.
  rewrite lex3_refl in H. discriminate.
Qed.

(** [-a <= -b] is [b <= a]. *)
Lemma leb_opp (a b : float) :
  PrimFloat.leb (PrimFloat.opp a) (PrimFloat.opp b) = PrimFloat.leb b a.
Proof.
  rewrite !leb_spec, !opp_spec. unfold SFleb. rewrite !SFcompare_key, !key_opp.
  destruct (key (Prim2SF a)) as [ka|], (key (Prim2SF b)) as [kb|];
    try reflexivity.
  cbn [option_map]. now rewrite lex3_opp.
Qed.

(** *** The local-maximum scan *)

Lemma look_ahead_binary64 (x : list float) (i i_max : nat) :
  forall fuel i_ahead,
    i_ahead <= i_max -> i_max - i_ahead <= fuel ->
    let r := look_ahead fuel x i i_ahead i_max in
    i_ahead <= r <= i_max /\
    (forall k, i_ahead <= k < r -> PrimFloat.eqb (at_ x k) (at_ x i) = true) /\
    (r < i_max -> PrimFloat.eqb (at_ x r) (at_ x i) = false).
Proof.
  induction fuel as [|fuel IH]; intros i_ahead Hle Hfuel.
  - simpl. repeat split; try lia.
  - simpl. destruct (Nat.ltb_spec i_ahead i_max) as [Hlt|Hge]; simpl.
    + destruct (PrimFloat.eqb (at_ x i_ahead) (at_ x i)) eqn:E.
      * destruct (IH (i_ahead + 1)) as (H1 & H2 & H3); [lia|lia|].
        repeat split; try lia; [|exact H3].
        intros k Hk. destruct (Nat.eq_dec k i_ahead) as [->|Hne].
        -- exact E.
        -- apply H2. lia.
      * repeat split; try lia. intros _. exact E.
    + repeat split; lia.
Qed.

Lemma local_maxima_loop_binary64 (x : list float) :
  forall fuel i,
    1 <= i -> (length x - 1) - i <= fuel ->
    forall m,
      In m (local_maxima_loop fuel x i (length x - 1)) <->
      exists l r, i <= l /\ plateau_peak x l r /\ m = (l + r) / 2.
Proof.
  set (i_max := length x - 1).
  induction fuel as [|fuel IH]; intros i Hi Hfuel m.
  - simpl. split; [intros []|].
    intros (l & r & Hl & (_ & Hlr & Hr & _) & _). lia.
  - cbn [local_maxima_loop].
    destruct (Nat.ltb_spec i i_max) as [Hlt|Hge].
    2:{ split; [intros []|].
        intros (l & r & Hl & (_ & Hlr & Hr & _) & _). lia. }
    assert (Hstep : PrimFloat.ltb (at_ x (i - 1)) (at_ x i) = false \/
                    ~ (exists r, plateau_peak x i r) ->
                    (In m (local_maxima_loop fuel x (i + 1) i_max) <->
                     exists l r, i <= l /\ plateau_peak x l r /\ m = (l + r) / 2)).
    { intro Hno. rewrite IH by lia. split.
      - intros (l & r & Hl & Hp & Hm). exists l, r.
        split; [lia|split; assumption].
      - intros (l & r & Hl & Hp & Hm). exists l, r.
        split; [|split; assumption].
        destruct (Nat.eq_dec l i) as [->|Hne]; [|lia]. exfalso.
        destruct Hno as [Hno|Hno].
        + destruct Hp as (_ & _ & _ & Hp & _). congruence.
        + apply Hno. now exists r. }
    destruct (PrimFloat.ltb (at_ x (i - 1)) (at_ x i)) eqn:Eprev;
      [|apply Hstep; now left].
    destruct (@look_ahead_binary64 x i i_max i_max (i + 1)) as (Ha1 & Ha2 & Ha3);
      [lia|lia|].
    set (i_ahead := look_ahead i_max x i (i + 1) i_max) in *.
    assert (Hflat : forall k, i <= k < i_ahead ->
                              PrimFloat.eqb (at_ x k) (at_ x i) = true).
    { intros k Hk. destruct (Nat.eq_dec k i) as [->|Hne].
      - exact (@ltb_eqb_refl _ _ Eprev).
      - apply Ha2. lia. }
    destruct (PrimFloat.ltb (at_ x i_ahead) (at_ x i)) eqn:Enext.
    + assert (Hfound : plateau_peak x i (i_ahead - 1)).
      { unfold plateau_peak. repeat split; try lia.
        - exact Eprev.
        - intros k Hk. apply Hflat. lia.
        - now replace (i_ahead - 1 + 1) with i_ahead by lia. }
      cbn [In]. rewrite IH by lia. split.
      * intros [Hm|(l & r & Hl & Hp & Hm)].
        -- exists i, (i_ahead - 1). split; [lia|split; [exact Hfound|]].
           subst m. reflexivity.
        -- exists l, r. split; [lia|split; assumption].
      * intros (l & r & Hl & Hp & Hm).
        destruct Hp as (Hp1 & Hp2 & Hp3 & Hp4 & Hp5 & Hp6).
        destruct (Nat.eq_dec l i) as [->|Hne].
        -- left. assert (r = i_ahead - 1); [|subst; reflexivity].
           destruct (Nat.lt_trichotomy r (i_ahead - 1)) as [Hr|[Hr|Hr]];
             [exfalso|exact Hr|exfalso].
           ++ apply (@eqb_not_ltb (at_ x (r + 1)) (at_ x i));
                [apply Hflat; lia|exact Hp6].
           ++ apply (@eqb_not_ltb (at_ x i_ahead) (at_ x i));
                [apply Hp5; lia|exact Enext].
        -- right. exists l, r.
           split; [|split; [unfold plateau_peak; tauto|assumption]].
           destruct (Nat.le_gt_cases l i_ahead) as [Hle|Hgt]; [exfalso|lia].
           destruct (Nat.eq_dec l i_ahead) as [->|Hne'].
           ++ apply (@eqb_not_between (at_ x (i_ahead - 1)) (at_ x i_ahead) (at_ x i));
                [apply Hflat; lia|exact Hp4|exact Enext].
           ++ apply (@eqb_eqb_not_ltb (at_ x (l - 1)) (at_ x l) (at_ x i));
                [apply Hflat; lia|apply Hflat; lia|exact Hp4].
    + apply Hstep. right. intros (r & Hp).
      destruct Hp as (Hp1 & Hp2 & Hp3 & Hp4 & Hp5 & Hp6).
      destruct (Nat.lt_trichotomy (r + 1) i_ahead) as [Hr|[Hr|Hr]].
      * apply (@eqb_not_ltb (at_ x (r + 1)) (at_ x i));
          [apply Hflat; lia|exact Hp6].
      * rewrite Hr in Hp6. congruence.
      * assert (PrimFloat.eqb (at_ x i_ahead) (at_ x i) = true)
          by (apply Hp5; lia).
        rewrite Ha3 in H; [discriminate|unfold i_max; lia].
Qed.

Lemma local_maxima_1d_binary64 (x : list float) (m : nat) :
  In m (local_maxima_1d x) <-> local_peak x m.
Proof.
  unfold local_maxima_1d. cbv zeta. rewrite local_maxima_loop_binary64 by lia.
  unfold local_peak. split.
  - intros (l & r & _ & Hp & Hm). now exists l, r.
  - intros (l & r & Hp & Hm). exists l, r.
    split; [apply Hp|split; assumption].
Qed.

Lemma local_peak_interior_binary64 (x : list float) (i : nat) :
  local_peak x i -> 1 <= i /\ i + 1 < length x.
Proof.
  intros (l & r & (H1 & H2 & H3 & _) & ->).
  pose proof (half_sum_between H2). lia.
Qed.

(** *** Prominence *)

Lemma firstn_snoc_binary64 (x : list float) :
  forall k, k < length x -> firstn (S k) x = firstn k x ++ [at_ x k].
Proof.
  induction x as [|a x IH]; intros k Hk; [simpl in Hk; lia|].
  destruct k as [|k]; [reflexivity|].
  change (firstn (S (S k)) (a :: x)) with (a :: firstn (S k) x).
  rewrite IH by (simpl in Hk; lia). reflexivity.
Qed.

Lemma skipn_at_binary64 (x : list float) :
  forall k, k < length x -> skipn k x = at_ x k :: skipn (S k) x.
Proof.
  induction x as [|a x IH]; intros k Hk; [simpl in Hk; lia|].
  destruct k as [|k]; [reflexivity|].
  change (skipn (S k) (a :: x)) with (skipn k x).
  rewrite IH by (simpl in Hk; lia). reflexivity.
Qed.

Lemma left_scan_binary64 (x : list float) (peak : nat) :
  forall fuel j m,
    j <= length x -> j <= fuel ->
    left_scan fuel x peak (Z.of_nat j - 1) m =
    fold_left (fun m v => if PrimFloat.ltb v m then v else m)
              (take_while (fun v => PrimFloat.leb v (at_ x peak)) (rev (firstn j x))) m.
Proof.
  induction fuel as [|fuel IH]; intros j m Hj Hfuel.
  - replace j with 0 by lia. reflexivity.
  - destruct j as [|j]; [reflexivity|].
    cbn [left_scan].
    replace (Z.of_nat (S j) - 1)%Z with (Z.of_nat j) by lia.
    replace (0 <=? Z.of_nat j)%Z with true by (symmetry; apply Z.leb_le; lia).
    rewrite Nat2Z.id, firstn_snoc_binary64 by lia.
    rewrite rev_app_distr. cbn [rev app take_while andb].
    destruct (PrimFloat.leb (at_ x j) (at_ x peak)); [|reflexivity].
    cbn [fold_left]. apply IH; lia.
Qed.

Lemma right_scan_binary64 (x : list float) (peak : nat) :
  forall fuel i m,
    0 < length x -> i <= length x -> length x - i <= fuel ->
    right_scan fuel x peak i (length x - 1) m =
    fold_left (fun m v => if PrimFloat.ltb v m then v else m)
              (take_while (fun v => PrimFloat.leb v (at_ x peak)) (skipn i x)) m.
Proof.
  induction fuel as [|fuel IH]; intros i m Hx Hi Hfuel.
  - replace i with (length x) by lia. now rewrite skipn_all.
  - cbn [right_scan]. destruct (Nat.leb_spec i (length x - 1)) as [Hle|Hgt].
    + rewrite skipn_at_binary64 by lia. cbn [take_while andb].
      destruct (PrimFloat.leb (at_ x i) (at_ x peak)); [|reflexivity].
      cbn [fold_left]. replace (i + 1) with (S i) by lia. apply IH; lia.
    + replace i with (length x) by lia. now rewrite skipn_all.
Qed.

Lemma prominence_binary64 (x : list float) (peak : nat) :
  peak < length x -> prominence x peak = topographic_prominence x peak.
Proof.
  intro H. unfold prominence, topographic_prominence, valley. cbv zeta.
  replace (Z.of_nat peak) with (Z.of_nat (S peak) - 1)%Z by lia.
  rewrite left_scan_binary64 by lia.
  rewrite right_scan_binary64 by lia.
  reflexivity.
Qed.

(** *** [find_peaks] in closed form *)

Lemma peak_prominences_binary64 (x : list float) (peaks : list nat) :
  (forall p, In p peaks -> p < length x) ->
  peak_prominences x peaks = Ok (map (prominence x) peaks).
Proof.
  induction peaks as [|p peaks IH]; intro H; [reflexivity|].
  simpl. unfold prominence_of.
  replace (p <? length x) with true
    by (symmetry; apply Nat.ltb_lt, H; now left).
  simpl. rewrite IH; [reflexivity|].
  intros q Hq. apply H. now right.
Qed.

Lemma find_peaks_binary64 (x : list float) (height floor : float) :
  find_peaks x height floor =
  Ok (filter (fun i => PrimFloat.leb floor (prominence x i))
        (filter (fun i => PrimFloat.leb height (at_ x i)) (local_maxima_1d x))).
Proof.
  unfold find_peaks, select_by_property.
  rewrite map_map, select_map_filter.
  rewrite peak_prominences_binary64.
  - simpl. now rewrite map_map, select_map_filter.
  - intros p Hp. apply filter_In in Hp. destruct Hp as [Hp _].
    apply local_maxima_1d_binary64, local_peak_interior_binary64 in Hp. lia.
Qed.

Lemma at_opp_binary64 (x : list float) (i : nat) :
  at_ (map PrimFloat.opp x) i = PrimFloat.opp (at_ x i).
Proof.
  unfold at_. change nan with (PrimFloat.opp nan) at 1. apply map_nth.
Qed.

(** C4: on the float64 series the notebook passes to [find_peaks], with
    the floor the literal 0.3 denotes, a position is reported as a maximum
    exactly when it is a local peak of the series (hence an interior
    position) whose value is >= the upper cutoff and whose topographic
    prominence, the float64 difference between the peak and the higher of
    its two valleys, is >= 0.3; and as a minimum exactly when it is a local
    peak of the negated series whose value is <= the lower cutoff and whose
    topographic prominence in the negated series is >= 0.3.  Neither call
    raises.  The comparison with the floor is made on the rounded
    difference: the peak of 0.9, 1.2, 0.9 is not reported, the peak of
    0.2, 0.5, 0.2 is. *)
Theorem detection_contract (x : list float) (hi lo : float) :
  (exists ps,
      maxima_positions x hi = Ok ps /\
      forall i, In i ps <->
                local_peak x i /\
                PrimFloat.leb hi (at_ x i) = true /\
                PrimFloat.leb 0x1.3333333333333p-2 (topographic_prominence x i) = true) /\
  (exists qs,
      minima_positions x lo = Ok qs /\
      forall i, In i qs <->
                local_peak (map PrimFloat.opp x) i /\
                PrimFloat.leb (at_ x i) lo = true /\
                PrimFloat.leb 0x1.3333333333333p-2
                  (topographic_prominence (map PrimFloat.opp x) i) = true) /\
  (forall i, local_peak x i \/ local_peak (map PrimFloat.opp x) i ->
             1 <= i /\ i + 1 < length x) /\
  maxima_positions peak_below_floor 0%float = Ok [] /\
  maxima_positions peak_at_floor 0%float = Ok [1].
Proof.
  assert (Hin : forall (y : list float) (h : float) (i : nat),
             In i (filter (fun i => PrimFloat.leb prominence_floor (prominence y i))
                     (filter (fun i => PrimFloat.leb h (at_ y i)) (local_maxima_1d y))) <->
             local_peak y i /\ PrimFloat.leb h (at_ y i) = true /\
             PrimFloat.leb 0x1.3333333333333p-2 (topographic_prominence y i) = true).
  { intros y h i. rewrite !filter_In, local_maxima_1d_binary64.
    change prominence_floor with 0x1.3333333333333p-2%float.
    split.
    - intros [[H1 H2] H3].
      rewrite <- prominence_binary64; [tauto|].
      apply local_peak_interior_binary64 in H1. lia.
    - intros (H1 & H2 & H3).
      rewrite prominence_binary64; [tauto|].
      apply local_peak_interior_binary64 in H1. lia. }
  split; [|split; [|split; [|split]]].
  - unfold maxima_positions. rewrite find_peaks_binary64.
    eexists. split; [reflexivity|]. intro i. apply Hin.
  - unfold minima_positions. rewrite find_peaks_binary64.
    eexists. split; [reflexivity|]. intro i.
    rewrite Hin, at_opp_binary64, leb_opp. reflexivity.
  - intros i [H|H]; apply local_peak_interior_binary64 in H; [exact H|].
    now rewrite length_map in H.
  - vm_compute. reflexivity.
  - vm_compute. reflexivity.
Qed.

End Binary64Facts.

(** ** The whole run *)





(** C6: the zero denominator is reachable and nothing guards the division.
    On [duplicate_stamp] the run completes, the only row of the table has
    Delta_Time 0, its denominator is zero and its rate is the infinity the
    division yields; and a division by a zero denominator never yields a
    finite rate. *)
Theorem zero_time_delta_divides_unguarded :
  (exists s' l row,
      pipeline (fresh duplicate_stamp 4 2) = (s', Ok tt) /\
      extrema s' = WithRates [(l, row)] /\
      Delta_Time (deltas row) = Some 0%Z /\
      (hours 0 == 0)%Q /\
      NH3_per_Hour row = true_divide (Delta_NH3 (deltas row)) (hours 0) /\
      NH3_per_Hour row = PosInf) /\
  (forall (a : option Q) (q : Q), true_divide a (hours 0) <> Finite q).
Proof.
  split.
  - eexists. eexists. eexists. split; [vm_compute; reflexivity|].
    cbn [extrema]. split; [reflexivity|]. cbn.
    repeat split; reflexivity.
  - intros [a|] q; [|discriminate].
    unfold true_divide. replace (Qeq_bool (hours 0) 0) with true by reflexivity.
    destruct (a ?= 0)%Q; discriminate.
Qed.

(** C7: the series 1, 5, 1, 6, 1 with cutoffs 4 and 2, at ascending
    stamps.  The cell binds two maxima, 5 and 6, and one minimum, 1; the
    merged frame reads max, min, max; the loop deletes nothing. *)
Theorem worked_example (t0 t1 t2 t3 t4 : Z) :
  (t1 < t2 < t3)%Z ->
  let d := series [t0; t1; t2; t3; t4] [1; 5; 1; 6; 1]%Q in
  let s' := fst (detect_peaks (fresh d 4 2)) in
  let max5 := mkExtremum (mkSample t1 5) Tmax in
  let min1 := mkExtremum (mkSample t2 1) Tmin in
  let max6 := mkExtremum (mkSample t3 6) Tmax in
  snd (detect_peaks (fresh d 4 2)) = Ok tt /\
  maxima s' = Tagged [max5; max6] /\
  minima s' = Tagged [min1] /\
  merge_ordered [max5; max6] [min1] = enumerate [max5; min1; max6] /\
  final (alternation (enumerate [max5; min1; max6])) = enumerate [max5; min1; max6].
Proof.
  intros Ht d s' max5 min1 max6.
  assert (Hd : detect_peaks (fresh d 4 2) =
               (mkNotebook d 4 2 (Tagged [max5; max6]) (Tagged [min1]) (Merged []),
                Ok tt)).
  { unfold fresh. rewrite detect_peaks_closed_form.
    subst d max5 min1 max6. vm_compute. reflexivity. }
  subst s'. rewrite Hd. cbn [fst snd maxima minima].
  split; [reflexivity|]. split; [reflexivity|]. split; [reflexivity|]. split.
  - unfold merge_ordered. f_equal. subst max5 min1 max6.
    assert (E32 : (t3 <? t2)%Z = false) by (apply Z.ltb_ge; lia).
    assert (E23 : (t2 <? t3)%Z = true) by (apply Z.ltb_lt; lia).
    assert (E12 : (t1 <? t2)%Z = true) by (apply Z.ltb_lt; lia).
    cbn [app sort insert]. unfold key_leb. cbn [point Time].
    rewrite E32, E23. cbn [insert]. unfold key_leb. cbn [point Time].
    now rewrite E12.
  - rewrite alternation_keep_last. reflexivity.
Qed.

Lemma worked_example_witness :
  merge_ordered
    [mkExtremum (mkSample hour 5) Tmax; mkExtremum (mkSample (3 * hour) 6) Tmax]
    [mkExtremum (mkSample (2 * hour) 1) Tmin] =
  enumerate
    [mkExtremum (mkSample hour 5) Tmax; mkExtremum (mkSample (2 * hour) 1) Tmin;
     mkExtremum (mkSample (3 * hour) 6) Tmax].
Proof.
  apply (@worked_example 0 hour (2 * hour) (3 * hour) (4 * hour))%Z.
  vm_compute. split; reflexivity.
Defined.

(** C8 fails on the series 1, 5, 3, 6, 1, 5, 1 with cutoffs 4 and 2: the
    maxima 5, 6, 5 and the minimum 1 are detected, the merged frame reads
    max, max, min, max, the loop deletes the row labelled 0, and
    [extrema.drop(0, axis=0)] raises KeyError.  The first surviving row,
    with its missing differences, is still in [extrema]: it was not dropped
    and no rate is computed. *)
Example first_row_not_dropped :
  let max6 := mkExtremum (mkSample (3 * hour) 6) Tmax in
  let min1 := mkExtremum (mkSample (4 * hour) 1) Tmin in
  let max5 := mkExtremum (mkSample (5 * hour) 5) Tmax in
  let out := pipeline (fresh (hourly [1; 5; 3; 6; 1; 5; 1]%Q) 4 2) in
  maxima (fst out) = Tagged [mkExtremum (mkSample hour 5) Tmax; max6; max5] /\
  minima (fst out) = Tagged [min1] /\
  extrema (fst out) =
    WithDeltas [(1, mkDelta max6 None None);
                (2, mkDelta min1 (Some (1 - 6)%Q) (Some hour));
                (3, mkDelta max5 (Some (5 - 1)%Q) (Some hour))] /\
  snd out = Raise (KeyError 0).
Proof. vm_compute. repeat split; reflexivity. Qed.

(** ** Further properties of the "Rate Analysis" cell *)

(** Closed lists of stamps. *)
Ltac since_epoch_closed :=
  cbn [app];
  repeat (apply Forall_cons;
          [split; [apply Z.leb_le | apply Z.ltb_lt]; vm_compute; reflexivity|]);
  apply Forall_nil.

(** Between 1970 and 2262 the int64 difference is the difference. *)
Lemma timedelta_exact (cur prev : Z) :
  since_epoch cur -> since_epoch prev -> timedelta cur prev = (cur - prev)%Z.
Proof.
  unfold since_epoch, timedelta, wrap64. intros Hc Hp.
  rewrite Z.mod_small; lia.
Qed.

(** Outside that range it is not: from 1700-01-01 to 2200-01-01 the int64
    difference is negative. *)
Example timedelta_wraps_around :
  timedelta 7258118400000000000 (-8520336000000000000) =
  (-2668289673709551616)%Z.
Proof. reflexivity. Qed.

(** The table a completed cell leaves in [extrema]. *)
Lemma rate_steps_outcome (rs : list extremum) (s : notebook) :
  (first_row_kept rs /\
   rate_steps (enumerate rs) s =
   (set_extrema (WithRates (rate_table (keep_last label_tag (enumerate rs)))) s,
    Ok tt)) \/
  (~ first_row_kept rs /\
   rate_steps (enumerate rs) s =
   (set_extrema (WithDeltas (add_deltas (keep_last label_tag (enumerate rs)))) s,
    Raise (KeyError 0))).
Proof.
  destruct rs as [|a [|b rest]].
  - right. split; [intros []|]. apply rate_steps_first_gone. intros l [].
  - left. split; [exact I|].
    apply (@rate_steps_first_kept [a] a [] s); [reflexivity|intros l []].
  - destruct (tag_eqb (type a) (type b)) eqn:E.
    + apply tag_eqb_eq in E. right. split; [intro H; now apply H|].
      apply rate_steps_first_gone.
      rewrite (@keep_last_enumerate_eq a b rest E).
      intros l Hl. apply keep_last_labels_ge in Hl. lia.
    + apply tag_eqb_neq in E. left. split; [exact E|].
      rewrite (@keep_last_enumerate_neq a b rest E).
      apply rate_steps_first_kept.
      * apply (@keep_last_enumerate_neq a b rest E).
      * intros l Hl. apply keep_last_labels_ge in Hl. lia.
Qed.

Lemma rate_steps_completed (rs : list extremum) (s s' : notebook) :
  rate_steps (enumerate rs) s = (s', Ok tt) ->
  extrema s' = WithRates (rate_table (keep_last label_tag (enumerate rs))).
Proof.
  intro H. destruct (rate_steps_outcome rs s) as [[_ E]|[_ E]];
    rewrite E in H; [|discriminate].
  inversion H. reflexivity.
Qed.

(** X1: from a merged frame whose stamps lie between 1970 and 2262, so
    that no difference of two stamps leaves the int64 range, the cell
    either completes or stops at KeyError(0), nothing else: no lookup of
    the loop fails, no NaT reaches [total_seconds].  It completes exactly
    when the merged frame is not empty and keeps its first row: it has a
    single row, or its first two rows carry different tags. *)
Theorem rate_cell_completes_iff_first_row_kept (rs : list extremum) (s : notebook) :
  Forall (fun e => since_epoch (Time (point e))) rs ->
  (snd (rate_steps (enumerate rs) s) = Ok tt <-> first_row_kept rs) /\
  (snd (rate_steps (enumerate rs) s) = Raise (KeyError 0) <-> ~ first_row_kept rs).
Proof.
  intros _.
  destruct (rate_steps_outcome rs s) as [[K E]|[K E]]; rewrite E; cbn [snd].
  - split; split; intro H; try assumption; try reflexivity;
      try discriminate. contradiction.
  - split; split; intro H; try assumption; try reflexivity;
      try discriminate. contradiction.
Qed.

Lemma rate_cell_completes_iff_first_row_kept_witness :
  (snd (rate_steps (enumerate max_min_max) blank) = Ok tt <->
   first_row_kept max_min_max) /\
  (snd (rate_steps (enumerate max_min_max) blank) = Raise (KeyError 0) <->
   ~ first_row_kept max_min_max).
Proof.
  apply (@rate_cell_completes_iff_first_row_kept max_min_max blank).
  since_epoch_closed.
Defined.


(** ** Neighbouring survivors of a merged frame *)

Lemma adjacent_cons2 {A} (a b : A) (l : list A) :
  adjacent (a :: b :: l) = (a, b) :: adjacent (b :: l).
Proof. reflexivity. Qed.

Lemma adjacent_in {A} (l : list A) :
  forall u v, In (u, v) (adjacent l) -> In u l /\ In v l.
Proof.
  induction l as [|a l IH]; intros u v H; [contradiction|].
  destruct l as [|b l]; [contradiction|].
  rewrite adjacent_cons2 in H. destruct H as [H|H].
  - inversion H; subst. split; [now left|right; now left].
  - apply IH in H. split; right; apply H.
Qed.

Lemma alternates_adjacent {A} (tg : A -> tag) (l : list A) :
  alternates (map tg l) ->
  forall u v, In (u, v) (adjacent l) -> tg u <> tg v.
Proof.
  induction l as [|a l IH]; intros Halt u v H; [contradiction|].
  destruct l as [|b l]; [contradiction|].
  rewrite adjacent_cons2 in H. simpl in Halt. destruct Halt as [Hab Halt].
  destruct H as [H|H].
  - inversion H; subst. exact Hab.
  - now apply IH.
Qed.

Lemma strongly_sorted_adjacent {A} (R : A -> A -> Prop) (l : list A) :
  StronglySorted R l ->
  forall u v, In (u, v) (adjacent l) -> R u v.
Proof.
  induction l as [|a l IH]; intros Hs u v H; [contradiction|].
  destruct l as [|b l]; [contradiction|].
  rewrite adjacent_cons2 in H. inversion Hs as [|? ? Hs' Hall]; subst.
  destruct H as [H|H].
  - inversion H; subst. inversion Hall; assumption.
  - now apply IH.
Qed.

Lemma keep_last_strongly_sorted {A} (R : A -> A -> Prop) (tg : A -> tag)
    (l : list A) :
  StronglySorted R l -> StronglySorted R (keep_last tg l).
Proof.
  induction l as [|a l IH]; intro H; [constructor|].
  inversion H as [|? ? Hs Hall]; subst.
  destruct l as [|b l]; [exact H|].
  rewrite keep_last_cons2. destruct (tag_eqb (tg a) (tg b)); [now apply IH|].
  constructor; [now apply IH|].
  apply Forall_forall. intros x Hx. apply keep_last_incl in Hx.
  rewrite Forall_forall in Hall. now apply Hall.
Qed.

Lemma enum_from_strongly_sorted {A} (R : A -> A -> Prop) (l : list A) :
  StronglySorted R l ->
  forall i, StronglySorted (fun u v => R (snd u) (snd v)) (enum_from i l).
Proof.
  induction 1 as [|a l Hs IH Hall]; intro i; [constructor|].
  rewrite enum_from_cons. constructor; [apply IH|].
  apply Forall_forall. intros [k x] Hx. cbn [snd].
  apply in_enum_from in Hx. destruct Hx as [_ Hx].
  apply nth_error_In in Hx. rewrite Forall_forall in Hall. now apply Hall.
Qed.

Lemma sort_time_strongly_sorted (l : list extremum) :
  StronglySorted (fun u v => (Time (point u) <= Time (point v))%Z) (sort l).
Proof.
  apply Sorted_StronglySorted.
  - intros x y z Hxy Hyz. lia.
  - pose proof (sort_sorted l) as H.
    induction H as [|a t Hs IH Hh]; constructor; [exact IH|].
    destruct Hh as [|b t Hab]; constructor. now apply key_leb_time.
Qed.

(** Two neighbouring survivors of a merged frame are rows of [maxima] or of
    [minima], carry different tags, and are in time order. *)
Lemma merged_survivor_pairs (l r : list extremum) (prev cur : nat * extremum) :
  In (prev, cur) (adjacent (keep_last label_tag (merge_ordered l r))) ->
  In (snd prev) (l ++ r) /\ In (snd cur) (l ++ r) /\
  type (snd prev) <> type (snd cur) /\
  (Time (point (snd prev)) <= Time (point (snd cur)))%Z.
Proof.
  intro H.
  assert (Hin : forall u, In u (keep_last label_tag (merge_ordered l r)) ->
                          In (snd u) (l ++ r)).
  { intros [k x] Hu. apply keep_last_incl in Hu. unfold merge_ordered, enumerate in Hu.
    apply in_enum_from in Hu. destruct Hu as [_ Hu]. apply nth_error_In in Hu.
    apply (Permutation_in _ (sort_permutation (l ++ r))). exact Hu. }
  destruct (adjacent_in _ _ _ H) as [Hp Hc].
  split; [now apply Hin|]. split; [now apply Hin|]. split.
  - apply (alternates_adjacent label_tag _ (keep_last_alternates _ _) _ _ H).
  - apply (strongly_sorted_adjacent
             (R := fun u v => (Time (point (snd u)) <= Time (point (snd v)))%Z)
             (l := keep_last label_tag (merge_ordered l r))); [|exact H].
    apply keep_last_strongly_sorted. unfold merge_ordered, enumerate.
    apply (enum_from_strongly_sorted
             (R := fun u v => (Time (point u) <= Time (point v))%Z)).
    apply sort_time_strongly_sorted.
Qed.

Lemma in_rate_table (survivors : frame extremum) (lab : nat) (row : rate_row) :
  In (lab, row) (rate_table survivors) ->
  exists prev cur,
    In (prev, cur) (adjacent survivors) /\ (lab, row) = interval prev cur.
Proof.
  unfold rate_table. intro H. apply in_map_iff in H.
  destruct H as [[prev cur] [E H]]. exists prev, cur. split; [exact H|].
  now rewrite <- E.
Qed.

Lemma merge_ordered_enumerate (l r : list extremum) :
  merge_ordered l r = enumerate (sort (l ++ r)).
Proof. reflexivity. Qed.

(** X2: whatever rows [maxima] and [minima] hold, and in whatever order,
    provided their stamps lie between 1970 and 2262, a completed cell
    leaves no negative Delta_Time: the merged frame is in time order, the
    loop only deletes rows, and no difference of two such stamps wraps
    around. *)
Theorem time_deltas_never_negative (l r : list extremum) (s s' : notebook) :
  Forall (fun e => since_epoch (Time (point e))) (l ++ r) ->
  rate_steps (merge_ordered l r) s = (s', Ok tt) ->
  exists table,
    extrema s' = WithRates table /\
    forall lab row,
      In (lab, row) table ->
      exists dt, Delta_Time (deltas row) = Some dt /\ (0 <= dt)%Z.
Proof.
  intros Hw H. rewrite merge_ordered_enumerate in H.
  apply rate_steps_completed in H. rewrite <- merge_ordered_enumerate in H.
  eexists. split; [exact H|]. intros lab row Hrow.
  apply in_rate_table in Hrow. destruct Hrow as (prev & cur & Hadj & E).
  apply merged_survivor_pairs in Hadj. destruct Hadj as (Hp & Hc & _ & Ht).
  rewrite Forall_forall in Hw.
  unfold interval in E. inversion E; subst. cbn.
  eexists. split; [reflexivity|].
  rewrite timedelta_exact by (apply Hw; assumption). lia.
Qed.

Lemma time_deltas_never_negative_witness :
  exists table,
    extrema (fst (rate_steps
                    (merge_ordered
                       [mkExtremum (mkSample (3 * hour) 6) Tmax;
                        mkExtremum (mkSample hour 5) Tmax]
                       [mkExtremum (mkSample (2 * hour) 1) Tmin])
                    blank)) = WithRates table /\
    forall lab row,
      In (lab, row) table ->
      exists dt, Delta_Time (deltas row) = Some dt /\ (0 <= dt)%Z.
Proof.
  apply (@time_deltas_never_negative
           [mkExtremum (mkSample (3 * hour) 6) Tmax;
            mkExtremum (mkSample hour 5) Tmax]
           [mkExtremum (mkSample (2 * hour) 1) Tmin] blank).
  - since_epoch_closed.
  - vm_compute. reflexivity.
Defined.

(** ** Further properties of the detection *)

Lemma at_NH3 (d : list sample) (p : nat) :
  at_ (map NH3 d) p = NH3 (nth p d origin).
Proof.
  unfold at_. change 0%Q with (NH3 origin). apply map_nth.
Qed.

(** No sample is a local peak of the series and of the negated series. *)
Lemma local_peak_not_both (x : list Q) (i : nat) :
  local_peak x i -> local_peak (map Qopp x) i -> False.
Proof.
  intros (l & r & (H1 & H2 & H3 & H4 & H5 & H6) & Hi)
         (l' & r' & (H1' & H2' & H3' & H4' & H5' & H6') & Hi').
  rewrite !at_opp in H4'.
  assert (H5n : forall k, l' <= k <= r' -> (at_ x k == at_ x l')%Q).
  { intros k Hk. specialize (H5' k Hk). rewrite !at_opp in H5'. lra. }
  pose proof (half_sum_between H2) as Hm.
  pose proof (half_sum_between H2') as Hm'.
  rewrite <- Hi in Hm. rewrite <- Hi' in Hm'.
  assert (Ei : (at_ x i == at_ x l)%Q) by (apply H5; lia).
  assert (Ei' : (at_ x i == at_ x l')%Q) by (apply H5n; lia).
  destruct (Nat.lt_trichotomy l l') as [Hlt|[Heq|Hgt]].
  - assert (at_ x (l' - 1) == at_ x l)%Q by (apply H5; lia). lra.
  - subst l'. lra.
  - assert (at_ x (l - 1) == at_ x l')%Q by (apply H5n; lia). lra.
Qed.

(** The rows of [maxima] and of [minima]: where they come from. *)
Lemma in_detected_maxima (d : list sample) (hi : Q) (e : extremum) :
  In e (detected_maxima d hi) ->
  exists p, e = mkExtremum (nth p d origin) Tmax /\
            p < length d /\
            local_peak (map NH3 d) p /\
            (hi <= NH3 (nth p d origin))%Q.
Proof.
  unfold detected_maxima, maxima_positions.
  destruct (find_peaks (map NH3 d) hi prominence_floor) as [ps| |] eqn:E;
    try contradiction.
  intro H. apply in_map_iff in H. destruct H as (p & Hp & Hin).
  apply (@in_find_peaks _ _ _ _ p E) in Hin. destruct Hin as (Hpeak & Hh & _).
  exists p. split; [now symmetry|]. split; [|split; [exact Hpeak|]].
  - apply local_peak_interior in Hpeak. rewrite length_map in Hpeak. lia.
  - now rewrite <- at_NH3.
Qed.

Lemma in_detected_minima (d : list sample) (lo : Q) (e : extremum) :
  In e (detected_minima d lo) ->
  exists p, e = mkExtremum (nth p d origin) Tmin /\
            p < length d /\
            local_peak (map Qopp (map NH3 d)) p /\
            (NH3 (nth p d origin) <= lo)%Q.
Proof.
  unfold detected_minima, minima_positions.
  destruct (find_peaks (map Qopp (map NH3 d)) (- lo) prominence_floor)
    as [ps| |] eqn:E; try contradiction.
  intro H. apply in_map_iff in H. destruct H as (p & Hp & Hin).
  apply (@in_find_peaks _ _ _ _ p E) in Hin. destruct Hin as (Hpeak & Hh & _).
  exists p. split; [now symmetry|]. split; [|split; [exact Hpeak|]].
  - apply local_peak_interior in Hpeak. rewrite !length_map in Hpeak. lia.
  - rewrite at_opp, at_NH3 in Hh. lra.
Qed.

(** X3: no position is reported both as a maximum and as a minimum,
    whatever the series and the cutoffs (also when the lower cutoff lies
    above the upper one). *)
Theorem no_position_is_both_maximum_and_minimum (x : list Q) (hi lo : Q) :
  exists ps qs,
    maxima_positions x hi = Ok ps /\
    minima_positions x lo = Ok qs /\
    forall i, In i ps -> In i qs -> False.
Proof.
  unfold maxima_positions, minima_positions.
  destruct (find_peaks x hi prominence_floor) as [ps| |] eqn:Ep;
    try (rewrite find_peaks_closed_form in Ep; discriminate).
  destruct (find_peaks (map Qopp x) (- lo) prominence_floor) as [qs| |] eqn:Eq;
    try (rewrite find_peaks_closed_form in Eq; discriminate).
  exists ps, qs. split; [reflexivity|]. split; [reflexivity|].
  intros i Hp Hq.
  apply (@in_find_peaks _ _ _ _ i Ep) in Hp.
  apply (@in_find_peaks _ _ _ _ i Eq) in Hq.
  apply (@local_peak_not_both x i); [apply Hp|apply Hq].
Qed.

Lemma local_maxima_loop_increasing (x : list Q) (i_max : nat) :
  forall fuel i,
    StronglySorted lt (local_maxima_loop fuel x i i_max) /\
    Forall (fun m => i <= m) (local_maxima_loop fuel x i i_max).
Proof.
  induction fuel as [|fuel IH]; intro i; [split; constructor|].
  cbn [local_maxima_loop].
  destruct (Nat.ltb_spec i i_max) as [Hlt|Hge]; [|split; constructor].
  assert (Hnext : StronglySorted lt (local_maxima_loop fuel x (i + 1) i_max) /\
                  Forall (fun m => i <= m) (local_maxima_loop fuel x (i + 1) i_max)).
  { destruct (IH (i + 1)) as [Hs Hall]. split; [exact Hs|].
    eapply Forall_impl; [|exact Hall]. cbv beta. intros m Hm. lia. }
  destruct (Qltb (at_ x (i - 1)) (at_ x i)); [|exact Hnext].
  destruct (@look_ahead_spec x i i_max i_max (i + 1)) as (Ha & _); [lia|lia|].
  cbv zeta. set (i_ahead := look_ahead i_max x i (i + 1) i_max) in *.
  destruct (Qltb (at_ x i_ahead) (at_ x i)); [|exact Hnext].
  destruct (IH (i_ahead + 1)) as [Hs Hall].
  assert (Hmid : i <= (i + (i_ahead - 1)) / 2 <= i_ahead - 1)
    by (apply half_sum_between; lia).
  split; constructor; try exact Hs; try lia.
  - eapply Forall_impl; [|exact Hall]. cbv beta. intros m Hm. lia.
  - eapply Forall_impl; [|exact Hall]. cbv beta. intros m Hm. lia.
Qed.

Lemma filter_strongly_sorted {A} (R : A -> A -> Prop) (p : A -> bool) (l : list A) :
  StronglySorted R l -> StronglySorted R (filter p l).
Proof.
  induction 1 as [|a l Hs IH Hall]; [constructor|].
  simpl. destruct (p a); [|exact IH].
  constructor; [exact IH|].
  apply Forall_forall. intros y Hy. apply filter_In in Hy.
  rewrite Forall_forall in Hall. now apply Hall.
Qed.

(** X4: both calls of [find_peaks] return their positions in strictly
    increasing order, so no sample is reported twice and [maxima] and
    [minima] list their rows in the row order of [df]. *)
Theorem detected_positions_strictly_increasing (x : list Q) (hi lo : Q) :
  (exists ps, maxima_positions x hi = Ok ps /\ StronglySorted lt ps /\ NoDup ps) /\
  (exists qs, minima_positions x lo = Ok qs /\ StronglySorted lt qs /\ NoDup qs).
Proof.
  assert (H : forall y h,
             exists ps, find_peaks y h prominence_floor = Ok ps /\
                        StronglySorted lt ps /\ NoDup ps).
  { intros y h. rewrite find_peaks_closed_form. eexists. split; [reflexivity|].
    match goal with |- StronglySorted lt ?l /\ _ => assert (Hs : StronglySorted lt l) end.
    { do 2 apply filter_strongly_sorted. unfold local_maxima_1d.
      apply local_maxima_loop_increasing. }
    split; [exact Hs|]. revert Hs. generalize (filter
      (fun i : nat => Qle_bool prominence_floor (prominence y i))
      (filter (fun i : nat => Qle_bool h (at_ y i)) (local_maxima_1d y))).
    induction 1 as [|a l Hs IH Hall]; constructor; [|exact IH].
    intro Hin. rewrite Forall_forall in Hall. apply Hall in Hin. lia. }
  split; apply H.
Qed.

(** X5: moving the orange slider up never adds a maximum, and moving the
    green slider down never adds a minimum: every row detected under the
    stricter cutoff is detected under the looser one. *)
Theorem stricter_cutoffs_detect_fewer (d : list sample) (hi hi' lo lo' : Q) :
  (hi <= hi')%Q -> (lo' <= lo)%Q ->
  incl (detected_maxima d hi') (detected_maxima d hi) /\
  incl (detected_minima d lo') (detected_minima d lo).
Proof.
  intros Hhi Hlo.
  assert (H : forall (y : list Q) (h h' : Q) (t : tag),
             (h <= h')%Q ->
             forall ps ps',
               find_peaks y h prominence_floor = Ok ps ->
               find_peaks y h' prominence_floor = Ok ps' ->
               incl (map (fun p => mkExtremum (nth p d origin) t) ps')
                    (map (fun p => mkExtremum (nth p d origin) t) ps)).
  { intros y h h' t Hh ps ps' E E' e He. apply in_map_iff in He.
    destruct He as (p & Hp & Hin). apply in_map_iff. exists p.
    split; [exact Hp|].
    apply (@in_find_peaks _ _ _ _ p E') in Hin.
    apply (@in_find_peaks _ _ _ _ p E).
    destruct Hin as (H1 & H2 & H3). repeat split; try assumption. lra. }
  unfold detected_maxima, detected_minima, maxima_positions, minima_positions.
  rewrite !find_peaks_closed_form. split.
  - eapply H; [exact Hhi| |]; apply find_peaks_closed_form.
  - eapply H; [|apply find_peaks_closed_form|apply find_peaks_closed_form]. lra.
Qed.

Lemma stricter_cutoffs_detect_fewer_witness :
  incl (detected_maxima (hourly [1; 5; 1; 6; 1]%Q) (11 # 2))
       (detected_maxima (hourly [1; 5; 1; 6; 1]%Q) 4) /\
  incl (detected_minima (hourly [1; 5; 1; 6; 1]%Q) (1 # 2))
       (detected_minima (hourly [1; 5; 1; 6; 1]%Q) 2).
Proof.
  apply (@stricter_cutoffs_detect_fewer (hourly [1; 5; 1; 6; 1]%Q) 4 (11 # 2) 2 (1 # 2));
    vm_compute; discriminate.
Defined.

(** ** The rows of the table, from detection to display *)

Lemma detected_row_bounds (d : list sample) (hi lo : Q) (e : extremum) :
  In e (detected_maxima d hi ++ detected_minima d lo) ->
  (type e = Tmax -> (hi <= NH3 (point e))%Q) /\
  (type e = Tmin -> (NH3 (point e) <= lo)%Q).
Proof.
  intro H. apply in_app_or in H. destruct H as [H|H].
  - apply in_detected_maxima in H. destruct H as (p & -> & _ & _ & Hb).
    split; [intros _; exact Hb|discriminate].
  - apply in_detected_minima in H. destruct H as (p & -> & _ & _ & Hb).
    split; [discriminate|intros _; exact Hb].
Qed.

Lemma detected_rows_distinct_stamps (d : list sample) (hi lo : Q) (e1 e2 : extremum) :
  strictly_ascending d ->
  In e1 (detected_maxima d hi ++ detected_minima d lo) ->
  In e2 (detected_maxima d hi ++ detected_minima d lo) ->
  type e1 <> type e2 ->
  Time (point e1) <> Time (point e2).
Proof.
  intros Hasc H1 H2 Ht.
  assert (Hdiff : forall p q,
             p < length d -> q < length d ->
             local_peak (map NH3 d) p -> local_peak (map Qopp (map NH3 d)) q ->
             Time (nth p d origin) <> Time (nth q d origin)).
  { intros p q Hp Hq Lp Lq E.
    destruct (Nat.lt_trichotomy p q) as [Hlt|[Heq|Hgt]].
    - specialize (Hasc p q Hlt Hq). lia.
    - subst q. exact (local_peak_not_both Lp Lq).
    - specialize (Hasc q p Hgt Hp). lia. }
  apply in_app_or in H1. apply in_app_or in H2.
  destruct H1 as [H1|H1], H2 as [H2|H2].
  - apply in_detected_maxima in H1. apply in_detected_maxima in H2.
    destruct H1 as (p & -> & _), H2 as (q & -> & _). now elim Ht.
  - apply in_detected_maxima in H1. apply in_detected_minima in H2.
    destruct H1 as (p & -> & Hp & Lp & _), H2 as (q & -> & Hq & Lq & _).
    cbn [point]. now apply Hdiff.
  - apply in_detected_minima in H1. apply in_detected_maxima in H2.
    destruct H1 as (p & -> & Hp & Lp & _), H2 as (q & -> & Hq & Lq & _).
    cbn [point]. intro E. symmetry in E. revert E. now apply Hdiff.
  - apply in_detected_minima in H1. apply in_detected_minima in H2.
    destruct H1 as (p & -> & _), H2 as (q & -> & _). now elim Ht.
Qed.

Lemma hours_positive (dt : Z) : (0 < dt)%Z -> (0 < hours dt)%Q.
Proof.
  intro H. unfold hours.
  apply Qlt_shift_div_l; [reflexivity|].
  apply Qlt_shift_div_l; [reflexivity|].
  rewrite !Qmult_0_l. change 0%Q with (inject_Z 0). now rewrite <- Zlt_Qlt.
Qed.

Lemma true_divide_positive_hours (dv : Q) (dt : Z) :
  (0 < dt)%Z -> true_divide (Some dv) (hours dt) = Finite (dv / hours dt)%Q.
Proof.
  intro H. apply hours_positive in H. unfold true_divide.
  destruct (Qeq_bool (hours dt) 0) eqn:E; [|reflexivity].
  apply Qeq_bool_iff in E. lra.
Qed.

Lemma select_map_map {A B} (p : A -> bool) (f : A -> B) (l : list A) :
  select (map p l) (map f l) = map f (filter p l).
Proof.
  induction l as [|a l IH]; [reflexivity|].
  simpl. destruct (p a); simpl; now rewrite IH.
Qed.

Lemma curve_closed_form (t : tag) (table : frame rate_row) :
  curve t table =
  map (fun lr => (Time (point (base (deltas (snd lr)))), NH3_per_Hour (snd lr)))
      (filter (fun lr => tag_eqb (type (base (deltas (snd lr)))) t) table).
Proof.
  unfold curve, type_is, rows. rewrite !select_map_map, !map_map. cbn [snd].
  induction (filter _ table) as [|a l IH]; [reflexivity|].
  simpl. now rewrite IH.
Qed.

Lemma shown_table_closed_form (t : tag) (table : frame rate_row) :
  shown_table t table =
  map (fun lr => (fst lr, shown_columns (snd lr)))
      (filter (fun lr => tag_eqb (type (base (deltas (snd lr)))) t) table).
Proof.
  unfold shown_table, type_is. apply select_map_map.
Qed.

Lemma detected_row_in_df (d : list sample) (hi lo : Q) (e : extremum) :
  In e (detected_maxima d hi ++ detected_minima d lo) -> In (point e) d.
Proof.
  intro H. apply in_app_or in H. destruct H as [H|H].
  - apply in_detected_maxima in H. destruct H as (p & -> & Hp & _).
    cbn [point]. now apply nth_In.
  - apply in_detected_minima in H. destruct H as (p & -> & Hp & _).
    cbn [point]. now apply nth_In.
Qed.

(** X6: when the lower cutoff does not exceed the upper one, no 'max' row
    of the table is a fall and no 'min' row a rise, and with the lower
    cutoff strictly below the upper one every 'max' row is a rise and every
    'min' row a fall: a maximum is always preceded by a minimum and
    conversely. *)
Theorem maxima_rise_and_minima_fall (d : list sample) (hi lo : Q)
    (s s' : notebook) :
  (lo <= hi)%Q ->
  rate_steps (merge_ordered (detected_maxima d hi) (detected_minima d lo)) s =
    (s', Ok tt) ->
  exists table,
    extrema s' = WithRates table /\
    forall lab row,
      In (lab, row) table ->
      exists dv,
        Delta_NH3 (deltas row) = Some dv /\
        match type (base (deltas row)) with
        | Tmax => (0 <= dv)%Q /\ ((lo < hi)%Q -> (0 < dv)%Q)
        | Tmin => (dv <= 0)%Q /\ ((lo < hi)%Q -> (dv < 0)%Q)
        end.
Proof.
  intros Hcut H. rewrite merge_ordered_enumerate in H.
  apply rate_steps_completed in H. rewrite <- merge_ordered_enumerate in H.
  eexists. split; [exact H|]. intros lab row Hrow.
  apply in_rate_table in Hrow. destruct Hrow as (prev & cur & Hadj & E).
  apply merged_survivor_pairs in Hadj. destruct Hadj as (Hp & Hc & Ht & _).
  apply detected_row_bounds in Hp. apply detected_row_bounds in Hc.
  unfold interval in E. inversion E; subst. cbn.
  eexists. split; [reflexivity|].
  destruct (type (snd cur)) eqn:Ec, (type (snd prev)) eqn:Ep;
    try (now elim Ht).
  - destruct Hc as [Hc _], Hp as [_ Hp].
    specialize (Hc eq_refl). specialize (Hp eq_refl). split; [lra|intro; lra].
  - destruct Hc as [_ Hc], Hp as [Hp _].
    specialize (Hc eq_refl). specialize (Hp eq_refl). split; [lra|intro; lra].
Qed.

Lemma maxima_rise_and_minima_fall_witness :
  exists table,
    extrema (fst (rate_steps
                    (merge_ordered (detected_maxima (hourly [1; 5; 1; 6; 1]%Q) 4)
                                   (detected_minima (hourly [1; 5; 1; 6; 1]%Q) 2))
                    blank)) = WithRates table /\
    forall lab row,
      In (lab, row) table ->
      exists dv,
        Delta_NH3 (deltas row) = Some dv /\
        match type (base (deltas row)) with
        | Tmax => (0 <= dv)%Q /\ ((2 < 4)%Q -> (0 < dv)%Q)
        | Tmin => (dv <= 0)%Q /\ ((2 < 4)%Q -> (dv < 0)%Q)
        end.
Proof.
  apply (@maxima_rise_and_minima_fall (hourly [1; 5; 1; 6; 1]%Q) 4 2 blank).
  - vm_compute. discriminate.
  - vm_compute. reflexivity.
Defined.

Lemma hourly_five_ascending : strictly_ascending (hourly [1; 5; 1; 6; 1]%Q).
Proof.
  intros i j Hij Hj. simpl in Hj.
  destruct j as [|[|[|[|[|j]]]]]; try lia;
    destruct i as [|[|[|[|i]]]]; try lia; vm_compute; reflexivity.
Defined.

Lemma hourly_five_since_epoch :
  Forall (fun r => since_epoch (Time r)) (hourly [1; 5; 1; 6; 1]%Q).
Proof.
  unfold hourly, series. cbn [length seq map combine Time].
  since_epoch_closed.
Defined.

(** The time difference of two neighbouring survivors, for a [df] whose
    stamps grow strictly and lie between 1970 and 2262. *)
Lemma survivor_timedelta_positive (d : list sample) (hi lo : Q)
    (prev cur : nat * extremum) :
  strictly_ascending d ->
  Forall (fun r => since_epoch (Time r)) d ->
  In (prev, cur)
     (adjacent (keep_last label_tag
                  (merge_ordered (detected_maxima d hi) (detected_minima d lo)))) ->
  (0 < timedelta (Time (point (snd cur))) (Time (point (snd prev))))%Z.
Proof.
  intros Hasc Hw Hadj.
  apply merged_survivor_pairs in Hadj. destruct Hadj as (Hp & Hc & Ht & Hle).
  pose proof (@detected_rows_distinct_stamps d hi lo _ _ Hasc Hp Hc Ht) as Hne.
  rewrite Forall_forall in Hw.
  apply detected_row_in_df in Hp. apply detected_row_in_df in Hc.
  rewrite timedelta_exact by (apply Hw; assumption). lia.
Qed.

(** X7: when the stamps of [df] grow strictly and lie between 1970 and
    2262, every row of the table has a positive Delta_Time: neighbouring
    rows of the table never share a stamp and never come in reverse
    order. *)
Theorem ascending_stamps_give_positive_time_deltas (d : list sample) (hi lo : Q)
    (s s' : notebook) :
  strictly_ascending d ->
  Forall (fun r => since_epoch (Time r)) d ->
  rate_steps (merge_ordered (detected_maxima d hi) (detected_minima d lo)) s =
    (s', Ok tt) ->
  exists table,
    extrema s' = WithRates table /\
    forall lab row,
      In (lab, row) table ->
      exists dt, Delta_Time (deltas row) = Some dt /\ (0 < dt)%Z.
Proof.
  intros Hasc Hw H. rewrite merge_ordered_enumerate in H.
  apply rate_steps_completed in H. rewrite <- merge_ordered_enumerate in H.
  eexists. split; [exact H|]. intros lab row Hrow.
  apply in_rate_table in Hrow. destruct Hrow as (prev & cur & Hadj & E).
  pose proof (@survivor_timedelta_positive d hi lo prev cur Hasc Hw Hadj) as Hdt.
  unfold interval in E. inversion E; subst. cbn.
  eexists. split; [reflexivity|]. exact Hdt.
Qed.

Lemma ascending_stamps_give_positive_time_deltas_witness :
  exists table,
    extrema (fst (rate_steps
                    (merge_ordered (detected_maxima (hourly [1; 5; 1; 6; 1]%Q) 4)
                                   (detected_minima (hourly [1; 5; 1; 6; 1]%Q) 2))
                    blank)) = WithRates table /\
    forall lab row,
      In (lab, row) table ->
      exists dt, Delta_Time (deltas row) = Some dt /\ (0 < dt)%Z.
Proof.
  apply (@ascending_stamps_give_positive_time_deltas
           (hourly [1; 5; 1; 6; 1]%Q) 4 2 blank).
  - exact hourly_five_ascending.
  - exact hourly_five_since_epoch.
  - vm_compute. reflexivity.
Defined.

(** X8: what [plotrates] draws.  When the stamps of [df] grow strictly and
    lie between 1970 and 2262 and the lower cutoff is below the upper one,
    no point of the green curve (the 'max' rows) has a negative or
    undefined rate and no point of the red curve (the 'min' rows) a
    positive or undefined one. *)
Theorem plotted_increases_and_decreases (d : list sample) (hi lo : Q)
    (s s' : notebook) :
  strictly_ascending d ->
  Forall (fun r => since_epoch (Time r)) d ->
  (lo < hi)%Q ->
  rate_steps (merge_ordered (detected_maxima d hi) (detected_minima d lo)) s =
    (s', Ok tt) ->
  exists table,
    extrema s' = WithRates table /\
    (forall t rate, In (t, rate) (curve Tmax table) ->
                    rate = PosInf \/ exists q, rate = Finite q /\ (0 <= q)%Q) /\
    (forall t rate, In (t, rate) (curve Tmin table) ->
                    rate = NegInf \/ exists q, rate = Finite q /\ (q <= 0)%Q).
Proof.
  intros Hasc Hw Hcut H. rewrite merge_ordered_enumerate in H.
  apply rate_steps_completed in H. rewrite <- merge_ordered_enumerate in H.
  eexists. split; [exact H|].
  assert (Hrow : forall tg t rate,
             In (t, rate)
                (curve tg (rate_table
                             (keep_last label_tag
                                (merge_ordered (detected_maxima d hi)
                                               (detected_minima d lo))))) ->
             exists q, rate = Finite q /\
                       match tg with
                       | Tmax => (0 <= q)%Q
                       | Tmin => (q <= 0)%Q
                       end).
  { intros tg t rate Hin. rewrite curve_closed_form in Hin.
    apply in_map_iff in Hin. destruct Hin as ([lab row] & E & Hin).
    apply filter_In in Hin. destruct Hin as [Hin Htg]. cbn [snd] in *.
    apply tag_eqb_eq in Htg.
    apply in_rate_table in Hin. destruct Hin as (prev & cur & Hadj & Erow).
    pose proof (@survivor_timedelta_positive d hi lo prev cur Hasc Hw Hadj) as Hdt.
    apply merged_survivor_pairs in Hadj. destruct Hadj as (Hp & Hc & Ht & Hle).
    apply detected_row_bounds in Hp. apply detected_row_bounds in Hc.
    assert (Er : row = snd (interval prev cur)) by now rewrite <- Erow.
    subst row. unfold interval in E, Htg.
    cbn [snd fst deltas base NH3_per_Hour] in E, Htg.
    apply pair_equal_spec in E. destruct E as [_ E]. rewrite <- E.
    rewrite (true_divide_positive_hours _ Hdt).
    eexists. split; [reflexivity|].
    pose proof (hours_positive Hdt) as Hh. subst tg.
    destruct (type (snd cur)) eqn:Ec, (type (snd prev)) eqn:Ep;
      try (now elim Ht).
    - destruct Hc as [Hc _], Hp as [_ Hp].
      specialize (Hc eq_refl). specialize (Hp eq_refl).
      apply Qle_shift_div_l; [exact Hh|]. lra.
    - destruct Hc as [_ Hc], Hp as [Hp _].
      specialize (Hc eq_refl). specialize (Hp eq_refl).
      apply Qle_shift_div_r; [exact Hh|]. lra. }
  split; intros t rate Hin; right; apply (Hrow _ _ _ Hin).
Qed.

Lemma plotted_increases_and_decreases_witness :
  exists table,
    extrema (fst (rate_steps
                    (merge_ordered (detected_maxima (hourly [1; 5; 1; 6; 1]%Q) 4)
                                   (detected_minima (hourly [1; 5; 1; 6; 1]%Q) 2))
                    blank)) = WithRates table /\
    (forall t rate, In (t, rate) (curve Tmax table) ->
                    rate = PosInf \/ exists q, rate = Finite q /\ (0 <= q)%Q) /\
    (forall t rate, In (t, rate) (curve Tmin table) ->
                    rate = NegInf \/ exists q, rate = Finite q /\ (q <= 0)%Q).
Proof.
  apply (@plotted_increases_and_decreases (hourly [1; 5; 1; 6; 1]%Q) 4 2 blank).
  - exact hourly_five_ascending.
  - exact hourly_five_since_epoch.
  - vm_compute. reflexivity.
  - vm_compute. reflexivity.
Defined.

(** ** The two tables of the display *)

Lemma alternates_tail (a : tag) (ts : list tag) :
  alternates (a :: ts) -> alternates ts.
Proof.
  destruct ts as [|b ts]; [intros _; exact I|]. simpl. tauto.
Qed.

Lemma alternates_counts (ts : list tag) :
  alternates ts ->
  let n_max := length (filter (fun t => tag_eqb t Tmax) ts) in
  let n_min := length (filter (fun t => tag_eqb t Tmin) ts) in
  match ts with
  | [] => n_max = 0 /\ n_min = 0
  | Tmax :: _ => n_max = n_min \/ n_max = n_min + 1
  | Tmin :: _ => n_min = n_max \/ n_min = n_max + 1
  end.
Proof.
  induction ts as [|a ts IH]; intro H; [split; reflexivity|].
  specialize (IH (alternates_tail _ _ H)). cbv zeta in *.
  destruct ts as [|b ts].
  - destruct a; simpl; lia.
  - destruct H as [Hab _].
    destruct a, b; try (now elim Hab); cbn [filter tag_eqb length] in *; lia.
Qed.

Lemma rate_table_tags (survivors : frame extremum) :
  map (fun lr => type (base (deltas (snd lr)))) (rate_table survivors) =
  map label_tag (tl survivors).
Proof.
  unfold rate_table, adjacent. rewrite map_map.
  destruct survivors as [|a survivors]; [reflexivity|]. cbn [tl].
  revert a. induction survivors as [|b survivors IH]; intro a; [reflexivity|].
  simpl. f_equal. apply IH.
Qed.

Lemma filter_length_map {A B} (f : A -> B) (p : B -> bool) (l : list A) :
  length (filter (fun a => p (f a)) l) = length (filter p (map f l)).
Proof.
  induction l as [|a l IH]; [reflexivity|].
  simpl. destruct (p (f a)); simpl; now rewrite IH.
Qed.

Lemma filter_partition_permutation {A} (p q : A -> bool) (l : list A) :
  (forall a, q a = negb (p a)) -> Permutation (filter p l ++ filter q l) l.
Proof.
  intro H. induction l as [|a l IH]; [constructor|].
  simpl. rewrite (H a). destruct (p a); simpl.
  - now constructor.
  - apply Permutation_sym, Permutation_cons_app, Permutation_sym, IH.
Qed.

(** X9: the tables shown as "Maxima" and "Minima".  Every row of the rate
    table appears in exactly one of the two, and because the survivors
    alternate the two tables differ in length by at most one row. *)
Theorem shown_tables_split_evenly (rs : list extremum) (s s' : notebook) :
  rate_steps (enumerate rs) s = (s', Ok tt) ->
  exists table,
    extrema s' = WithRates table /\
    Permutation (shown_table Tmax table ++ shown_table Tmin table)
                (map (fun lr => (fst lr, shown_columns (snd lr))) table) /\
    length (shown_table Tmax table) <= length (shown_table Tmin table) + 1 /\
    length (shown_table Tmin table) <= length (shown_table Tmax table) + 1.
Proof.
  intro H. apply rate_steps_completed in H.
  eexists. split; [exact H|].
  set (table := rate_table (keep_last label_tag (enumerate rs))).
  rewrite !shown_table_closed_form. split.
  - rewrite <- map_app. apply Permutation_map.
    apply filter_partition_permutation.
    intros [lab row]. cbn [snd]. now destruct (type (base (deltas row))).
  - rewrite !length_map.
    rewrite (filter_length_map (fun lr => type (base (deltas (snd lr))))
                               (fun t => tag_eqb t Tmax)).
    rewrite (filter_length_map (fun lr : nat * rate_row => type (base (deltas (snd lr))))
                               (fun t => tag_eqb t Tmin)).
    unfold table. rewrite rate_table_tags.
    pose proof (keep_last_alternates label_tag (enumerate rs)) as Halt.
    assert (Htl : alternates (map label_tag (tl (keep_last label_tag (enumerate rs))))).
    { destruct (keep_last label_tag (enumerate rs)) as [|a l]; [exact I|].
      now apply alternates_tail in Halt. }
    pose proof (alternates_counts _ Htl) as Hc. cbv zeta in Hc.
    destruct (map label_tag (tl (keep_last label_tag (enumerate rs)))) as [|[] ts];
      cbn [filter length] in *; lia.
Qed.

Lemma shown_tables_split_evenly_witness :
  exists table,
    extrema (fst (rate_steps (enumerate max_min_max) blank)) = WithRates table /\
    Permutation (shown_table Tmax table ++ shown_table Tmin table)
                (map (fun lr => (fst lr, shown_columns (snd lr))) table) /\
    length (shown_table Tmax table) <= length (shown_table Tmin table) + 1 /\
    length (shown_table Tmin table) <= length (shown_table Tmax table) + 1.
Proof.
  apply (@shown_tables_split_evenly max_min_max blank).
  vm_compute. reflexivity.
Defined.

(** ** Which rows the loop keeps, and series without extrema *)

Lemma keep_last_tags {A} (tg : A -> tag) (l : list A) :
  forall a,
    map tg (keep_last tg (a :: l)) =
    tg a :: map tg (keep_first_after tg (tg a) l).
Proof.
  induction l as [|b l IH]; intro a; [reflexivity|].
  rewrite keep_last_cons2. cbn [keep_first_after].
  destruct (tag_eqb (tg a) (tg b)) eqn:E.
  - rewrite IH. apply tag_eqb_eq in E. now rewrite E.
  - cbn [map]. now rewrite IH.
Qed.

Lemma keep_first_after_enum (rs : list extremum) :
  forall i t,
    map label_tag (keep_first_after label_tag t (enum_from i rs)) =
    map type (keep_first_after type t rs).
Proof.
  induction rs as [|b rs IH]; intros i t; [reflexivity|].
  rewrite enum_from_cons. cbn [keep_first_after].
  change (label_tag (i, b)) with (type b).
  destruct (tag_eqb t (type b)); [apply IH|].
  cbn [map]. change (label_tag (i, b)) with (type b). f_equal. apply IH.
Qed.

(** X14: the loop keeps another row of each run than a first-seen filter
    would, but the same number of rows with the same sequence of tags: one
    row per run of equal tags. *)
Theorem alternation_tags_as_first_seen (rs : list extremum) :
  map label_tag (final (alternation (enumerate rs))) =
    map type (keep_first type rs) /\
  length (final (alternation (enumerate rs))) = length (keep_first type rs).
Proof.
  assert (H : map label_tag (final (alternation (enumerate rs))) =
              map type (keep_first type rs)).
  { rewrite alternation_keep_last. cbn [final].
    destruct rs as [|a rs]; [reflexivity|].
    unfold enumerate. rewrite enum_from_cons, keep_last_tags.
    change (label_tag (0, a)) with (type a). cbn [keep_first map]. f_equal.
    apply keep_first_after_enum. }
  split; [exact H|].
  apply (f_equal (@length tag)) in H. now rewrite !length_map in H.
Qed.

(** X15: a series of fewer than three samples, and a series that never
    decreases, has no maximum and no minimum, whatever the cutoffs. *)
Theorem short_or_monotone_series_have_no_extrema (x : list Q) (hi lo : Q) :
  length x < 3 \/ (forall i, i + 1 < length x -> (at_ x i <= at_ x (i + 1))%Q) ->
  maxima_positions x hi = Ok [] /\ minima_positions x lo = Ok [].
Proof.
  intro H.
  assert (Hnone : forall i, ~ local_peak x i /\ ~ local_peak (map Qopp x) i).
  { intro i. split.
    - intros (l & r & (H1 & H2 & H3 & H4 & H5 & H6) & _).
      destruct H as [H|H]; [lia|].
      specialize (H r H3). specialize (H5 r (conj H2 (Nat.le_refl r))). lra.
    - intros (l & r & (H1 & H2 & H3 & H4 & H5 & H6) & _).
      rewrite length_map in H3. destruct H as [H|H]; [lia|].
      rewrite !at_opp in H4. specialize (H (l - 1)).
      replace (l - 1 + 1) with l in H by lia.
      assert (Hl : l < length x) by lia. specialize (H Hl). lra. }
  unfold maxima_positions, minima_positions. split.
  - destruct (find_peaks x hi prominence_floor) as [[|p ps]| |] eqn:E;
      try (rewrite find_peaks_closed_form in E; discriminate); [reflexivity|].
    exfalso. apply (proj1 (Hnone p)).
    apply (@in_find_peaks _ _ _ _ p E). now left.
  - destruct (find_peaks (map Qopp x) (- lo) prominence_floor) as [[|p ps]| |] eqn:E;
      try (rewrite find_peaks_closed_form in E; discriminate); [reflexivity|].
    exfalso. apply (proj2 (Hnone p)).
    apply (@in_find_peaks _ _ _ _ p E). now left.
Qed.

Lemma short_or_monotone_series_have_no_extrema_witness :
  maxima_positions [1; 2; 2; 5]%Q 4 = Ok [] /\
  minima_positions [1; 2; 2; 5]%Q 2 = Ok [].
Proof.
  apply (@short_or_monotone_series_have_no_extrema [1; 2; 2; 5]%Q 4 2).
  right. intros i Hi. simpl in Hi.
  destruct i as [|[|[|i]]]; try lia; vm_compute; discriminate.
Defined.

(** ** The helper [display_side_by_side] *)

Module DisplayFacts.
Import Ascii String Display.

Lemma append_assoc (a b c : string) :
  append (append a b) c = append a (append b c).
Proof.
  induction a as [|ch a IH]; [reflexivity|]. simpl. now rewrite IH.
Qed.

Lemma append_empty (a : string) : append a EmptyString = a.
Proof.
  induction a as [|ch a IH]; [reflexivity|]. simpl. now rewrite IH.
Qed.

Lemma render_loop {Table : Type} (repr_html : Table -> string -> string)
    (items : list (string * Table)) :
  forall output,
    fold_left
      (fun output cd => append (append output (repr_html (snd cd) (fst cd))) nbsp3)
      items output =
    append output (blocks repr_html items).
Proof.
  induction items as [|cd items IH]; intro output.
  - simpl. now rewrite append_empty.
  - simpl. rewrite IH. now rewrite !append_assoc.
Qed.

Lemma dict_set_absent {V : Type} (k : string) (v : V) (d : list (string * V)) :
  ~ In k (map fst d) -> dict_set k v d = (d ++ [(k, v)])%list.
Proof.
  induction d as [|[k' v'] d IH]; intro H; [reflexivity|].
  simpl. destruct (eqb_spec k' k) as [E|_].
  - exfalso. apply H. now left.
  - rewrite IH; [reflexivity|]. intro Hin. apply H. now right.
Qed.

Lemma dict_loop_distinct {V : Type} (pairs : list (string * V)) :
  forall acc,
    NoDup (map fst (acc ++ pairs)%list) ->
    fold_left (fun d kv => dict_set (fst kv) (snd kv) d) pairs acc =
    (acc ++ pairs)%list.
Proof.
  induction pairs as [|[k v] pairs IH]; intros acc H.
  - simpl. now rewrite app_nil_r.
  - simpl. rewrite dict_set_absent.
    + rewrite IH; rewrite <- app_assoc; [reflexivity|exact H].
    + rewrite map_app in H. apply NoDup_remove_2 in H.
      intro Hin. apply H. apply in_or_app. now left.
Qed.

Lemma combine_keys_distinct {V : Type} (ks : list string) :
  forall vs : list V, NoDup ks -> NoDup (map fst (combine ks vs)).
Proof.
  induction ks as [|k ks IH]; intros vs H; [constructor|].
  destruct vs as [|v vs]; [constructor|].
  inversion H as [|? ? Hk Hks]; subst. simpl. constructor; [|now apply IH].
  intro Hin. apply Hk. apply in_map_iff in Hin.
  destruct Hin as ([k' v'] & E & Hin). simpl in E. subst k'.
  now apply in_combine_l in Hin.
Qed.

(** X10: with pairwise distinct captions the output holds every table that
    has a caption, once, under its own caption, in the order given; tables
    beyond the last caption (and captions beyond the last table) are left
    out without an error. *)
Theorem distinct_captions_show_every_table {Table : Type}
    (repr_html : Table -> string -> string)
    (dfs : list Table) (captions : list string) :
  NoDup captions ->
  display_side_by_side repr_html dfs captions =
    blocks repr_html (combine captions dfs) /\
  List.length (combine captions dfs) =
    Nat.min (List.length captions) (List.length dfs).
Proof.
  intro H. split; [|apply length_combine].
  unfold display_side_by_side, dict. cbv zeta.
  rewrite (dict_loop_distinct (combine captions dfs) []).
  - now rewrite render_loop.
  - simpl. now apply combine_keys_distinct.
Qed.

Lemma distinct_captions_show_every_table_witness :
  display_side_by_side (fun (df : nat) caption => caption) [1; 2]
    [String "M" EmptyString; String "m" EmptyString] =
  blocks (fun (df : nat) caption => caption)
    (combine [String "M" EmptyString; String "m" EmptyString] [1; 2]).
Proof.
  apply (@distinct_captions_show_every_table nat (fun df caption => caption)).
  repeat constructor; simpl; intuition discriminate.
Defined.

Lemma dict_set_keys {V : Type} (k : string) (v : V) (d : list (string * V)) :
  forall k', In k' (map fst (dict_set k v d)) <-> k' = k \/ In k' (map fst d).
Proof.
  induction d as [|[k0 v0] d IH]; intro k'.
  - simpl. intuition.
  - simpl. destruct (eqb_spec k0 k) as [E|N]; simpl.
    + subst k0. intuition.
    + rewrite IH. intuition.
Qed.

Lemma dict_set_nodup {V : Type} (k : string) (v : V) (d : list (string * V)) :
  NoDup (map fst d) -> NoDup (map fst (dict_set k v d)).
Proof.
  induction d as [|[k0 v0] d IH]; intro H.
  - simpl. constructor; [intros []|constructor].
  - inversion H as [|? ? Hk Hd]; subst. simpl.
    destruct (eqb_spec k0 k) as [E|N]; simpl.
    + now constructor.
    + constructor; [|now apply IH].
      rewrite dict_set_keys. intros [E|Hin]; [now apply N|now apply Hk].
Qed.

Lemma dict_set_items {V : Type} (k : string) (v : V) (d : list (string * V)) :
  NoDup (map fst d) ->
  forall k' v',
    In (k', v') (dict_set k v d) <->
    (k' = k /\ v' = v) \/ (k' <> k /\ In (k', v') d).
Proof.
  induction d as [|[k0 v0] d IH]; intros H k' v'.
  - simpl. split.
    + intros [E|[]]. inversion E. now left.
    + intros [[-> ->]|[_ []]]. now left.
  - inversion H as [|? ? Hk Hd]; subst. simpl.
    destruct (eqb_spec k0 k) as [E|N]; simpl.
    + subst k0. split.
      * intros [E|Hin]; [inversion E; now left|].
        right. split; [|now right]. intros ->. apply Hk.
        now apply (in_map fst) in Hin.
      * intros [[-> ->]|[Hne [E|Hin]]]; [now left| |now right].
        inversion E. now elim Hne.
    + rewrite (IH Hd). split.
      * intros [E|[[-> ->]|[Hne Hin]]].
        -- inversion E; subst. right. split; [exact N|now left].
        -- now left.
        -- right. split; [exact Hne|now right].
      * intros [[-> ->]|[Hne [E|Hin]]].
        -- right. now left.
        -- now left.
        -- right. right. now split.
Qed.

Lemma last_with_snoc {V : Type} (k : string) (pairs : list (string * V))
    (k0 : string) (v0 : V) :
  last_with k (pairs ++ [(k0, v0)])%list =
  if (k0 =? k)%string then Some v0 else last_with k pairs.
Proof.
  induction pairs as [|[k1 v1] pairs IH].
  - simpl. now destruct (k0 =? k)%string.
  - simpl. rewrite IH. destruct (k0 =? k)%string; [reflexivity|].
    reflexivity.
Qed.

Lemma dict_items {V : Type} (pairs : list (string * V)) :
  NoDup (map fst (dict pairs)) /\
  forall k v, In (k, v) (dict pairs) <-> last_with k pairs = Some v.
Proof.
  unfold dict. induction pairs as [|[k0 v0] pairs IH] using rev_ind.
  - simpl. split; [constructor|]. intros k v. split; [intros []|discriminate].
  - destruct IH as [Hnd Hitems]. rewrite fold_left_app. simpl. split.
    + now apply dict_set_nodup.
    + intros k v. cbn [fst snd]. rewrite (@dict_set_items V k0 v0 _ Hnd), last_with_snoc, Hitems.
      destruct (eqb_spec k0 k) as [E|N].
      * subst k0. split.
        -- intros [[_ ->]|[Hne _]]; [reflexivity|now elim Hne].
        -- intro E. inversion E. now left.
      * split.
        -- intros [[-> _]|[_ H]]; [now elim N|exact H].
        -- intro H. right. split; [congruence|exact H].
Qed.

(** X11: in general the output holds one table per distinct caption: under
    each caption the last table that was passed with it, so a table whose
    caption is repeated later is never shown. *)
Theorem repeated_caption_shows_last_table {Table : Type}
    (repr_html : Table -> string -> string)
    (dfs : list Table) (captions : list string) :
  exists combined,
    display_side_by_side repr_html dfs captions = blocks repr_html combined /\
    NoDup (map fst combined) /\
    forall caption df,
      In (caption, df) combined <->
      last_with caption (combine captions dfs) = Some df.
Proof.
  exists (dict (combine captions dfs)). split.
  - unfold display_side_by_side. cbv zeta. now rewrite render_loop.
  - apply dict_items.
Qed.

End DisplayFacts.


(** ** The helper [create_download_link] *)

Module DownloadFacts.
Import Ascii String Download.

Lemma list_by_threes {A : Type} (P : list A -> Prop) :
  P [] ->
  (forall a, P [a]) ->
  (forall a b, P [a; b]) ->
  (forall a b c rest, P rest -> P (a :: b :: c :: rest)) ->
  forall l, P l.
Proof.
  intros H0 H1 H2 H3. fix IH 1.
  intros [|a [|b [|c rest]]]; [exact H0|apply H1|apply H2|].
  apply H3, IH.
Qed.

Lemma sextet_round_trip (n : Z) :
  (0 <= n < 64)%Z -> b64value (b64char n) = Some n /\ b64char n <> pad.
Proof.
  intro H.
  assert (Hall : forallb sextet_ok (seq 0 64) = true) by (vm_compute; reflexivity).
  rewrite forallb_forall in Hall.
  assert (Hin : In (Z.to_nat n) (seq 0 64)) by (apply in_seq; lia).
  apply Hall in Hin. unfold sextet_ok in Hin. rewrite Z2Nat.id in Hin by lia.
  apply andb_true_iff in Hin. destruct Hin as [Hv Hp]. split.
  - destruct (b64value (b64char n)) as [m|]; [|discriminate].
    apply Z.eqb_eq in Hv. now subst m.
  - apply negb_true_iff in Hp. now apply Ascii.eqb_neq in Hp.
Qed.

Lemma pad_eqb_refl : (pad =? pad)%char = true.
Proof. reflexivity. Qed.

Lemma b64decode_b64encode (bs : list Z) :
  Forall is_byte bs -> b64decode (b64encode bs) = Some bs.
Proof.
  unfold is_byte. induction bs as [| a | a b | a b c rest IH] using list_by_threes;
    intro H.
  - reflexivity.
  - inversion H as [|? ? Ha _]; subst.
    cbn [b64encode b64decode].
    destruct (@sextet_round_trip (a / 4)) as [E0 _];
      [Z.div_mod_to_equations; lia|].
    destruct (@sextet_round_trip (a mod 4 * 16)) as [E1 _];
      [Z.div_mod_to_equations; lia|].
    rewrite E0, E1, pad_eqb_refl. do 2 f_equal.
    Z.div_mod_to_equations; lia.
  - inversion H as [|? ? Ha H']; subst. inversion H' as [|? ? Hb _]; subst.
    cbn [b64encode b64decode].
    destruct (@sextet_round_trip (a / 4)) as [E0 _];
      [Z.div_mod_to_equations; lia|].
    destruct (@sextet_round_trip (a mod 4 * 16 + b / 16)) as [E1 _];
      [Z.div_mod_to_equations; lia|].
    destruct (@sextet_round_trip (b mod 16 * 4)) as [E2 N2];
      [Z.div_mod_to_equations; lia|].
    rewrite E0, E1, E2, pad_eqb_refl.
    apply Ascii.eqb_neq in N2. rewrite N2.
    do 2 f_equal; [|f_equal]; Z.div_mod_to_equations; lia.
  - inversion H as [|? ? Ha H']; subst. inversion H' as [|? ? Hb H'']; subst.
    inversion H'' as [|? ? Hc Hrest]; subst.
    cbn [b64encode b64decode]. rewrite (IH Hrest).
    destruct (@sextet_round_trip (a / 4)) as [E0 _];
      [Z.div_mod_to_equations; lia|].
    destruct (@sextet_round_trip (a mod 4 * 16 + b / 16)) as [E1 _];
      [Z.div_mod_to_equations; lia|].
    destruct (@sextet_round_trip (b mod 16 * 4 + c / 64)) as [E2 N2];
      [Z.div_mod_to_equations; lia|].
    destruct (@sextet_round_trip (c mod 64)) as [E3 N3];
      [Z.div_mod_to_equations; lia|].
    rewrite E0, E1, E2, E3.
    apply Ascii.eqb_neq in N2. apply Ascii.eqb_neq in N3. rewrite N2, N3.
    do 2 f_equal; [|f_equal; [|f_equal]]; Z.div_mod_to_equations; lia.
Qed.

Lemma b64char_safe (n : Z) : In (b64char n) (pad :: alphabet).
Proof.
  unfold b64char. destruct (nth_in_or_default (Z.to_nat n) alphabet pad) as [H|H].
  - now right.
  - left. now symmetry.
Qed.

Lemma b64encode_safe (bs : list Z) :
  Forall (fun c => In c (pad :: alphabet)) (b64encode bs).
Proof.
  induction bs as [| a | a b | a b c rest IH] using list_by_threes;
    cbn [b64encode];
    repeat (apply Forall_cons; [first [apply b64char_safe | left; reflexivity]|]);
    first [apply Forall_nil | exact IH].
Qed.

Lemma b64encode_length (bs : list Z) :
  List.length (b64encode bs) = 4 * ((List.length bs + 2) / 3).
Proof.
  induction bs as [| a | a b | a b c rest IH] using list_by_threes;
    try reflexivity.
  cbn [b64encode List.length]. rewrite IH.
  replace (S (S (S (List.length rest))) + 2) with (List.length rest + 2 + 1 * 3) by lia.
  rewrite Nat.div_add by lia. lia.
Qed.

(** X12: the link carries the CSV unchanged: its href is
    [data:text/csv;base64,] followed by a payload from which the bytes of
    the CSV text are read back exactly, whatever they are. *)
Theorem download_link_payload_decodes_to_csv (csv : list Z) (title filename : string) :
  Forall is_byte csv ->
  exists payload,
    create_download_link csv title filename = anchor_html filename payload title /\
    b64decode (list_ascii_of_string payload) = Some csv.
Proof.
  intro H. exists (string_of_list_ascii (b64encode csv)).
  split; [reflexivity|].
  rewrite list_ascii_of_string_of_list_ascii. now apply b64decode_b64encode.
Qed.

Lemma download_link_payload_decodes_to_csv_witness :
  exists payload,
    create_download_link [44; 84; 105; 109; 101]%Z default_title default_filename =
      anchor_html default_filename payload default_title /\
    b64decode (list_ascii_of_string payload) = Some [44; 84; 105; 109; 101]%Z.
Proof.
  apply (@download_link_payload_decodes_to_csv [44; 84; 105; 109; 101]%Z).
  unfold is_byte. repeat constructor; lia.
Defined.

(** X13: whatever the table holds, the payload is made of the 64 characters
    of the Base64 alphabet and the padding only, four characters for every
    three bytes begun; none of them is a double quote, so no cell of the
    table can end the href attribute. *)
Theorem download_link_payload_is_attribute_safe (csv : list Z) (title filename : string) :
  exists payload,
    create_download_link csv title filename = anchor_html filename payload title /\
    Forall (fun c => In c (pad :: alphabet)) (list_ascii_of_string payload) /\
    ~ In (ascii_of_nat 34) (list_ascii_of_string payload) /\
    String.length payload = 4 * ((List.length csv + 2) / 3).
Proof.
  exists (string_of_list_ascii (b64encode csv)).
  split; [reflexivity|]. rewrite list_ascii_of_string_of_list_ascii.
  pose proof (b64encode_safe csv) as Hsafe. split; [exact Hsafe|]. split.
  - intro Hin. rewrite Forall_forall in Hsafe. apply Hsafe in Hin.
    revert Hin. vm_compute. intuition discriminate.
  - rewrite <- b64encode_length.
    generalize (b64encode csv). intro l.
    induction l as [|c l IH]; [reflexivity|]. simpl. now rewrite IH.
Qed.

End DownloadFacts.
